(** * Record-to-row normalisation pipeline of the Shopify/Matrixify data
    preparation tool.

    The development embeds the three services that turn product records
    into Matrixify rows

    - [JsonProcessorService.processJson]      (structured-array mode),
    - [CsvProcessorService.processCsv]        (flexible tabular mode),
    - [ShopifyProcessorService.processCsv]    (re-projection mode),

    together with [slugify], [getCol], [DataExtractorService.createHandle]
    and the image collection of [ScraperService.processUrlAndHtml].

    JavaScript strings are sequences of UTF-16 code units; they are modelled
    as [list N].  Property names of rows are only ever compared for
    equality, so they are kept as Rocq strings and rows are finite maps
    from property names to cells. *)

From Stdlib Require Import NArith ZArith List Bool Lia Ascii String DecimalString.
From stdpp Require Import base gmap sets list strings.

Local Open Scope N_scope.

(** ** JavaScript strings *)

Abbreviation jsstring := (list N).

(** A string literal of the source whose characters are all ASCII. *)
Fixpoint js (s : string) : jsstring :=
  match s with
  | EmptyString => []
  | String a s' => N_of_ascii a :: js s'
  end.

Definition HYPHEN : N := 45.
Definition AMPERSAND : N := 38.
Definition UNDERSCORE : N := 95.

Definition isUpperAZ (c : N) : bool := (65 <=? c) && (c <=? 90).
Definition isLowerAZ (c : N) : bool := (97 <=? c) && (c <=? 122).
Definition isDigit (c : N) : bool := (48 <=? c) && (c <=? 57).
Definition isHyphen (c : N) : bool := c =? HYPHEN.

(** [\w] of a regular expression without the [u] and [i] flags. *)
Definition isWordChar (c : N) : bool :=
  isUpperAZ c || isLowerAZ c || isDigit c || (c =? UNDERSCORE).

(** [\s]: the WhiteSpace and LineTerminator code units of ECMAScript:
    U+0009 to U+000D, U+0020, U+00A0, U+1680, U+2000 to U+200A, U+2028,
    U+2029, U+202F, U+205F, U+3000 and U+FEFF. *)
Definition isSpace (c : N) : bool :=
  ((9 <=? c) && (c <=? 13)) || (c =? 32) || (c =? 160) || (c =? 5760)
  || ((8192 <=? c) && (c <=? 8202)) || (c =? 8232) || (c =? 8233)
  || (c =? 8239) || (c =? 8287) || (c =? 12288) || (c =? 65279).

(** [s.trim()] *)
Fixpoint trimStart (s : jsstring) : jsstring :=
  match s with
  | [] => []
  | c :: s' => if isSpace c then trimStart s' else s
  end.

Fixpoint trimEnd (s : jsstring) : jsstring :=
  match s with
  | [] => []
  | c :: s' =>
      match trimEnd s' with
      | [] => if isSpace c then [] else [c]
      | r => c :: r
      end
  end.

Definition trim (s : jsstring) : jsstring := trimEnd (trimStart s).

(** Truthiness of a possibly absent string: [undefined], [null] and the
    empty string are falsy. *)
Definition truthy (o : option jsstring) : bool :=
  match o with
  | Some (_ :: _) => true
  | _ => false
  end.

(** [o || d] for a possibly absent string [o]. *)
Definition orElse (o : option jsstring) (d : jsstring) : jsstring :=
  match o with
  | Some (c :: s) => c :: s
  | _ => d
  end.

(** [s.replace(/\n/g, rep)] *)
Definition replaceNewlines (rep : jsstring) (s : jsstring) : jsstring :=
  flat_map (fun c => if c =? 10 then rep else [c]) s.

(** [parts.filter(Boolean).join(sep)] *)
Fixpoint join (sep : jsstring) (parts : list jsstring) : jsstring :=
  match parts with
  | [] => []
  | [p] => p
  | p :: ps => p ++ sep ++ join sep ps
  end.

Definition filterBoolean (parts : list (option jsstring)) : list jsstring :=
  omap (fun o => match o with Some (c :: s) => Some (c :: s) | _ => None end) parts.

(** ** The slug generator

    The three copies of [slugify] ([scraperService.ts],
    [csvProcessorService], [JsonProcessorService._slugify]) are the same
    text; one definition embeds them all. *)

(** [const a = 'àáâäæãåāăąçćčđďèéêëēėęěğǵḧîïíīįìłḿñńǹňôöòóœøōõőṕŕřßśšşșťțûüùúūǘůűųẃẍÿýžźż·/_,:;'],
    code unit by code unit. *)
Definition table_a : jsstring :=
  [224; 225; 226; 228; 230; 227; 229; 257; 259; 261; 231; 263; 269; 273;
   271; 232; 233; 234; 235; 275; 279; 281; 283; 287; 501; 7719; 238; 239;
   237; 299; 303; 236; 322; 7743; 241; 324; 505; 328; 244; 246; 242; 243;
   339; 248; 333; 245; 337; 7765; 341; 345; 223; 347; 353; 351; 537; 357;
   539; 251; 252; 249; 250; 363; 472; 367; 369; 371; 7811; 7821; 255; 253;
   382; 378; 380; 183; 47; 95; 44; 58; 59].

Definition table_b : jsstring :=
  js "aaaaaaaaaacccddeeeeeeeegghiiiiiilmnnnnoooooooooprrsssssttuuuuuuuuuwxyyzzz------".

(** [a.indexOf(c)] *)
Fixpoint indexOf (c : N) (a : jsstring) : option nat :=
  match a with
  | [] => None
  | x :: a' => if x =? c then Some O else S <$> indexOf c a'
  end.

(** [b.charAt(i)]: the empty string when [i] is out of range. *)
Definition charAt (b : jsstring) (i : nat) : jsstring :=
  match b !! i with
  | Some x => [x]
  | None => []
  end.

(** [.replace(/\s+/g, '-')]: every maximal run of white space becomes one
    hyphen; a white-space unit emits the hyphen when it closes its run. *)
Fixpoint replaceSpaces (s : jsstring) : jsstring :=
  match s with
  | [] => []
  | c :: s' =>
      if isSpace c then
        match s' with
        | c' :: _ => if isSpace c' then replaceSpaces s' else HYPHEN :: replaceSpaces s'
        | [] => [HYPHEN]
        end
      else c :: replaceSpaces s'
  end.

(** [.replace(p, c => b.charAt(a.indexOf(c)))] where [p] is the alternation
    of the code units of [a]. *)
Definition replaceTable (s : jsstring) : jsstring :=
  flat_map (fun c => match indexOf c table_a with
                     | Some i => charAt table_b i
                     | None => [c]
                     end) s.

(** [.replace(/&/g, '-and-')] *)
Definition replaceAmp (s : jsstring) : jsstring :=
  flat_map (fun c => if c =? AMPERSAND then js "-and-" else [c]) s.

(** [.replace(/[^\w\-]+/g, '')] *)
Definition stripNonWord (s : jsstring) : jsstring :=
  List.filter (fun c => isWordChar c || isHyphen c) s.

(** [.replace(/\-\-+/g, '-')]: a run of two or more hyphens becomes one
    hyphen, a single hyphen stays; in both cases the run leaves exactly
    one hyphen, emitted when the run closes. *)
Fixpoint collapseHyphens (s : jsstring) : jsstring :=
  match s with
  | [] => []
  | c :: s' =>
      if isHyphen c then
        match s' with
        | c' :: _ => if isHyphen c' then collapseHyphens s' else c :: collapseHyphens s'
        | [] => [c]
        end
      else c :: collapseHyphens s'
  end.

(** [.replace(/^-+/, '')] *)
Fixpoint trimHyphensStart (s : jsstring) : jsstring :=
  match s with
  | [] => []
  | c :: s' => if isHyphen c then trimHyphensStart s' else s
  end.

(** [.replace(/-+$/, '')] *)
Fixpoint trimHyphensEnd (s : jsstring) : jsstring :=
  match s with
  | [] => []
  | c :: s' =>
      match trimHyphensEnd s' with
      | [] => if isHyphen c then [] else [c]
      | r => c :: r
      end
  end.

(** The chain of [.replace] calls that follows [text.toString().toLowerCase()]. *)
Definition slugSteps (lowered : jsstring) : jsstring :=
  trimHyphensEnd (trimHyphensStart (collapseHyphens (stripNonWord
    (replaceAmp (replaceTable (replaceSpaces lowered)))))).

(** ** [String.prototype.toLowerCase]

    The built-in is not part of the repository.  The pipeline is
    parameterised by it (Section [Pipeline] below) and uses two facts of the
    Unicode lower-case mapping only:
    on a string of ASCII code units it lowers [A-Z] and changes nothing
    else, and its result never contains one of [A-Z].

    [toLowerCase_latin] is the mapping on the blocks Basic Latin, Latin-1
    Supplement and Latin Extended-A (U+0000 to U+017F), and leaves every
    other code unit unchanged; it is the instance the closed examples are
    evaluated with. *)

Definition lowerAscii (c : N) : N := if isUpperAZ c then c + 32 else c.

Definition lowerUnit_latin (c : N) : jsstring :=
  if isUpperAZ c then [c + 32]
  else if (192 <=? c) && (c <=? 222) && negb (c =? 215) then [c + 32]
  else if c =? 304 then [105; 775]
  else if c =? 376 then [255]
  else if ((256 <=? c) && (c <=? 303) || (306 <=? c) && (c <=? 311)
           || (330 <=? c) && (c <=? 375)) && N.even c then [c + 1]
  else if ((313 <=? c) && (c <=? 328) || (377 <=? c) && (c <=? 382))
          && N.odd c then [c + 1]
  else [c].

Definition toLowerCase_latin (s : jsstring) : jsstring :=
  flat_map lowerUnit_latin s.

Definition isAscii (c : N) : Prop := c < 128.

Definition lowers_ascii (lower : jsstring -> jsstring) : Prop :=
  forall s, Forall isAscii s -> lower s = map lowerAscii s.

Definition never_upper (lower : jsstring -> jsstring) : Prop :=
  forall s, Forall (fun c => isUpperAZ c = false) (lower s).

(** ** The language of slugs

    What [slugify] returns: lower-case letters, digits and hyphens, with no
    two hyphens in a row and no hyphen at either end. *)

Definition isSlugChar (c : N) : bool := isLowerAZ c || isDigit c || isHyphen c.

Fixpoint noDoubleHyphen (s : jsstring) : bool :=
  match s with
  | [] => true
  | c :: s' =>
      match s' with
      | c' :: _ => negb (isHyphen c && isHyphen c') && noDoubleHyphen s'
      | [] => true
      end
  end.

Record isSlug (s : jsstring) : Prop := {
  slug_chars : Forall (fun c => isSlugChar c = true) s;
  slug_no_double : noDoubleHyphen s = true;
  slug_no_leading : trimHyphensStart s = s;
  slug_no_trailing : trimHyphensEnd s = s
}.

(** ** Rows, diagnostics and outcomes *)

(** A value of a [MatrixifyRow]: [string | number]; an absent property is
    an absent key of the map. *)
Inductive cell : Type :=
  | Str (s : jsstring)
  | Num (n : Z).

Abbreviation MatrixifyRow := (gmap string cell).

(** A row of a parsed CSV file ([Papa.parse] with [header: true] and no
    dynamic typing): every value is a string. *)
Abbreviation InputRow := (gmap string jsstring).

(** A field is blank in the serialised table when the row has no such
    property or holds the empty string. *)
Definition isBlank (r : MatrixifyRow) (k : string) : bool :=
  match r !! k with
  | None | Some (Str []) => true
  | _ => false
  end.

Definition blank (r : MatrixifyRow) (k : string) : Prop := isBlank r k = true.

(** The [throw new Error(...)] sites of the three services, and the
    [TypeError] the engine raises when [processJson] reads a property of
    [null] or calls [.replace] on a value that has none; no service
    catches it. *)
Inductive error : Type :=
  | InvalidJson
  | DataNotArray
  | NoProductsInJson
  | EmptyCsv
  | NoProductsInCsv
  | EmptyShopifyCsv
  | UncaughtTypeError.

Definition quote : string := String (ascii_of_nat 34) EmptyString.

(** The human-readable message each error carries; for the [TypeError]
    the wording is the engine's, and only the name of the error is given. *)
Definition message (e : error) : string :=
  match e with
  | InvalidJson => "無効なJSONファイルです。ファイルの内容を確認してください。"
  | DataNotArray =>
      "JSONの " +:+ quote +:+ "data" +:+ quote
      +:+ " フィールドに製品の配列が見つかりませんでした。"
  | NoProductsInJson => "JSONファイルから処理できる製品データが見つかりませんでした。"
  | EmptyCsv => "CSVファイルが空か、有効なデータ行が含まれていません。"
  | NoProductsInCsv => "CSVファイルから処理できる製品データが見つかりませんでした。"
  | EmptyShopifyCsv => "CSVファイルが空か、またはヘッダーが無効です。"
  | UncaughtTypeError => "TypeError"
  end.

Inductive outcome (A : Type) : Type :=
  | Returned (a : A)
  | Thrown (e : error).
Arguments Returned {A} a.
Arguments Thrown {A} e.

(** The rows of a run, none when it failed. *)
Definition rowsOf (o : outcome (list MatrixifyRow)) : list MatrixifyRow :=
  match o with
  | Returned rows => rows
  | Thrown _ => []
  end.

(** The cells of a row that tell the row groups apart: Variant SKU, Handle,
    Image Src and Image Position. *)
Definition rowView (r : MatrixifyRow)
  : option cell * option cell * option cell * option cell :=
  (r !! "Variant SKU", r !! "Handle", r !! "Image Src", r !! "Image Position").

Inductive LogType : Type := INFO | SUCCESS | WARNING | ERROR | GEMINI.

(** The diagnostics the record loops pass to [addLog]. *)
Inductive diagnostic : Type :=
  | MissingProductId (r : InputRow)
  | DuplicateSku (styleNo : jsstring)
  | NoHandle (r : InputRow)
  | BlankHandleRow (title : option jsstring)
  | NoRowsProcessed.

Definition logType (d : diagnostic) : LogType :=
  match d with
  | NoRowsProcessed => ERROR
  | _ => WARNING
  end.

(** [allImages.includes(thumb)] *)
Definition includes (x : jsstring) (l : list jsstring) : bool :=
  bool_decide (x ∈ l).

(** The continuation rows [{Handle, Image Src, Image Position}]; [first] is
    the position of the first of them. *)
Definition imageRow (handle : jsstring) (first : Z) (i : nat) (url : jsstring)
  : MatrixifyRow :=
  {[ "Handle" := Str handle;
     "Image Src" := Str url;
     "Image Position" := Num (Z.of_nat i + first)%Z ]}.

Definition imageRows (handle : jsstring) (first : Z) (urls : list jsstring)
  : list MatrixifyRow :=
  imap (imageRow handle first) urls.

(** ** Structured-array mode: the records *)

(** Modelled from the spec: the declaration of [KadoaWorkflowProduct] is
    not among the sources.  The fields are those of input mode A (spec
    section 6), which are the ones [processJson] reads; each may be absent,
    and [thumbnailImages] is an array of strings. *)
Module Kadoa.
Record Product : Type := {
  productId : option jsstring;
  productName : option jsstring;
  description : option jsstring;
  caution : option jsstring;
  material : option jsstring;
  color : option jsstring;
  size : option jsstring;
  fitLevel : option jsstring;
  brandName : option jsstring;
  mainImage : option jsstring;
  thumbnailImages : option (list jsstring)
}.
End Kadoa.

(** What [JSON.parse], the read of [parsedJson.data], the [Array.isArray]
    test and the loop leave of the input text:
    - [Malformed]: [JSON.parse] throws;
    - [NullRoot]: the text is the JSON [null], and reading [parsedJson.data]
      raises a [TypeError] that nothing catches;
    - [NotAnArray]: any other value whose [data] is not an array;
    - [DataArray data]: [data] is an array of records whose fields have the
      types [KadoaWorkflowProduct] declares (an absent field is [None]);
    - [ThrowingElement]: [data] is an array with an element on which the
      loop body raises a [TypeError] that nothing catches: a [null] element
      ([p.description] reads a property of [null]), a [description],
      [caution] or [material] that is truthy and has no [replace] method,
      and the like; the rows pushed before that element are lost with the
      throw.
    An array whose elements depart from the declared types without raising
    anything (a product name that is a number, say) is not described: the
    loop treats it by the coercions of JavaScript, which the record type
    [Kadoa.Product] does not carry. *)
Inductive decoded : Type :=
  | Malformed
  | NullRoot
  | NotAnArray
  | DataArray (data : list Kadoa.Product)
  | ThrowingElement.

(** [<br><br><strong>注意:</strong> ] and [<br><br><strong>素材:</strong> ],
    code unit by code unit (注意 is U+6CE8 U+610F, 素材 is U+7D20 U+6750). *)
Definition cautionPrefix : jsstring :=
  js "<br><br><strong>" ++ [27880; 24847] ++ js ":</strong> ".
Definition materialPrefix : jsstring :=
  js "<br><br><strong>" ++ [32032; 26448] ++ js ":</strong> ".

(** [bodyParts.join('')] of description, caution and material. *)
Definition htmlBody (description caution material : option jsstring) : jsstring :=
  (if truthy description then replaceNewlines (js "<br>") (orElse description []) else [])
  ++ (if truthy caution
      then cautionPrefix ++ replaceNewlines (js "<br>") (orElse caution []) else [])
  ++ (if truthy material
      then materialPrefix ++ replaceNewlines (js "<br>") (orElse material []) else []).

(** [hasImages] *)
Definition hasImages (p : Kadoa.Product) : bool :=
  truthy (Kadoa.mainImage p)
  || match Kadoa.thumbnailImages p with
     | Some (_ :: _) => true
     | _ => false
     end.

(** The body of the [forEach] over the thumbnails. *)
Definition pushThumb (allImages : list jsstring) (thumb : jsstring) : list jsstring :=
  if truthy (Some thumb) && negb (includes thumb allImages)
  then allImages ++ [thumb]
  else allImages.

(** [allImages] of structured-array mode. *)
Definition collectImages (p : Kadoa.Product) : list jsstring :=
  foldl pushThumb
        (if truthy (Kadoa.mainImage p) then [orElse (Kadoa.mainImage p) []] else [])
        (default [] (Kadoa.thumbnailImages p)).

(** ** Flexible tabular mode: the column resolver *)

Module Field.
Inductive canonical : Type :=
  | product_id | name | description | caution | material | main_image
  | thumbnail_images | color | size | fit | brand.
End Field.

Definition COLUMN_MAP (key : Field.canonical) : list string :=
  match key with
  | Field.product_id => ["productID"; "productId"; "productId_1"]
  | Field.name => ["name"; "productName"]
  | Field.description => ["description"]
  | Field.caution => ["caution"]
  | Field.material => ["material"]
  | Field.main_image => ["mainImage"; "image"]
  | Field.thumbnail_images => ["thumbnailImages"]
  | Field.color => ["color"]
  | Field.size => ["size"]
  | Field.fit => ["fitLevel"]
  | Field.brand => ["brandName"]
  end.

Fixpoint firstNonBlank (r : InputRow) (cols : list string) : option jsstring :=
  match cols with
  | [] => None
  | colName :: cols' =>
      match r !! colName with
      | Some v => if trim v is [] then firstNonBlank r cols' else Some v
      | None => firstNonBlank r cols'
      end
  end.

(** [getCol(row, key)] *)
Definition getCol (r : InputRow) (key : Field.canonical) : option jsstring :=
  firstNonBlank r (COLUMN_MAP key).

(** [s.split(/[;,]/)] *)
Fixpoint splitThumbs (s : jsstring) : list jsstring :=
  match s with
  | [] => [[]]
  | c :: s' =>
      if (c =? 59) || (c =? 44) then [] :: splitThumbs s'
      else match splitThumbs s' with
           | piece :: pieces => (c :: piece) :: pieces
           | [] => [[c]]
           end
  end.

(** [thumbStr.split(/[;,]/).map(u => u.trim()).filter(Boolean)] *)
Definition parseThumbs (thumbStr : jsstring) : list jsstring :=
  List.filter (fun u => truthy (Some u)) (map trim (splitThumbs thumbStr)).

(** The thumbnails of a row of flexible tabular mode. *)
Definition csvThumbs (r : InputRow) : list jsstring :=
  match getCol r Field.thumbnail_images with
  | Some thumbStr => parseThumbs thumbStr
  | None => []
  end.

(** ** Re-projection mode: [ShopifyProcessorService], module [Shopify]

    Modelled from the spec: the declaration of [ShopifyInputRow] is not
    among the sources.  The rows come from [Papa.parse] with [header: true],
    so they are [InputRow]s: the cells of an existing export, keyed by the
    output header vocabulary (spec section 6, input mode D). *)

Module Shopify.

(** [row[k] && String(row[k]).trim() !== ''] *)
Definition filled (r : InputRow) (k : string) : bool :=
  truthy (r !! k) && negb (if trim (default [] (r !! k)) is [] then true else false).

(** The three [let last... = ''] variables the forward fill updates. *)
Record fillState : Type := {
  lastTitle : jsstring;
  lastVendor : jsstring;
  lastOption1Name : jsstring
}.

Definition initialFill : fillState :=
  {| lastTitle := []; lastVendor := []; lastOption1Name := [] |}.

(** One [if (...) { last = String(row[k]) } else { row[k] = last }]. *)
Definition fillColumn (k : string) (last : jsstring) (r : InputRow)
  : jsstring * InputRow :=
  if filled r k then (default [] (r !! k), r) else (last, <[k := last]> r).

Definition forwardFillRow (st : fillState) (row : InputRow) : fillState * InputRow :=
  let '(t, r1) := fillColumn "Title" (lastTitle st) row in
  let '(v, r2) := fillColumn "Vendor" (lastVendor st) r1 in
  let '(o, r3) := fillColumn "Option1 Name" (lastOption1Name st) r2 in
  ({| lastTitle := t; lastVendor := v; lastOption1Name := o |}, r3).

(** The first [rows.map]: rows in order, the state threaded through. *)
Fixpoint forwardFillFrom (st : fillState) (rows : list InputRow) : list InputRow :=
  match rows with
  | [] => []
  | row :: rows' =>
      let '(st', r) := forwardFillRow st row in
      r :: forwardFillFrom st' rows'
  end.

Definition forwardFill (rows : list InputRow) : list InputRow :=
  forwardFillFrom initialFill rows.

Definition defaults : list (string * jsstring) :=
  [ ("Vendor", js "Your-Store");
    ("Published", js "TRUE");
    ("Option1 Name", js "Title");
    ("Option1 Value", js "Default Title");
    ("Variant Grams", js "0");
    ("Variant Inventory Policy", js "deny");
    ("Variant Fulfillment Service", js "manual");
    ("Variant Inventory Qty", js "0");
    ("Variant Price", js "0");
    ("Variant Requires Shipping", js "TRUE");
    ("Variant Taxable", js "TRUE");
    ("Gift Card", js "FALSE");
    ("Body (HTML)", []);
    ("Tags", []) ].

(** [!(key in row) || row[key] == null || String(row[key]).trim() === ''] *)
Definition missing (r : InputRow) (k : string) : bool :=
  match r !! k with
  | None => true
  | Some v => if trim v is [] then true else false
  end.

Definition applyDefaults (r : InputRow) : InputRow :=
  foldl (fun acc kd => if missing acc kd.1 then <[kd.1 := kd.2]> acc else acc)
        r defaults.

(** The body of the second [rows.map]: [None] is the [null] of a skipped
    row. *)
Definition processRow (r : InputRow) : option InputRow :=
  if negb (filled r "Handle") then None else Some (applyDefaults r).

Definition rowDiagnostics (r : InputRow) : list diagnostic :=
  if negb (filled r "Handle") then [BlankHandleRow (r !! "Title")] else [].

(** [parseCsv]: rejects a file without data rows. *)
Definition parseCsv (data : list InputRow) : outcome (list InputRow) :=
  match data with
  | [] => Thrown EmptyShopifyCsv
  | _ => Returned data
  end.

(** [processCsv]: the rows handed to [Papa.unparse], or [None] for
    [{ generatedCsvString: null }], with the warnings and errors logged. *)
Definition processCsv (data : list InputRow)
  : outcome (option (list InputRow)) * list diagnostic :=
  match parseCsv data with
  | Thrown e => (Thrown e, [])
  | Returned rows =>
      let filledRows := forwardFill rows in
      let processedRows := omap processRow filledRows in
      let log := flat_map rowDiagnostics filledRows in
      match processedRows with
      | [] => (Returned None, log ++ [NoRowsProcessed])
      | _ => (Returned (Some processedRows), log)
      end
  end.

End Shopify.

(** ** HTML scraping mode: [ScraperService], the image list *)

Module Scraped.
Record ProductData : Type := {
  productName : jsstring;
  description : jsstring;
  sku : jsstring;
  vendor : jsstring;
  price : jsstring;
  mainImage : jsstring;
  thumbnailImages : option (list jsstring);
  size : option jsstring;
  color : option jsstring;
  material : option jsstring
}.
End Scraped.

(** [[mainImage, ...thumbnails].filter(Boolean)] *)
Definition scrapedImages (d : Scraped.ProductData) : list jsstring :=
  List.filter (fun u => truthy (Some u))
              (Scraped.mainImage d :: default [] (Scraped.thumbnailImages d)).

(** ** Extracted single record mode: the raw record *)

Module Raw.
Record ExtractedData : Type := {
  productId : option jsstring;
  productName : option jsstring;
  description : option jsstring;
  caution : option jsstring;
  color : option jsstring;
  material : option jsstring;
  vendor : option jsstring;
  mainImage : option jsstring
}.
End Raw.

(** The character class of [createHandle] lists what is kept: [a-z],
    [0-9], the hyphen and six CJK ranges. *)
Definition keptInHandle (c : N) : bool :=
  isLowerAZ c || isDigit c || isHyphen c
  || ((0x3000 <=? c) && (c <=? 0x303f)) || ((0x3040 <=? c) && (c <=? 0x309f))
  || ((0x30a0 <=? c) && (c <=? 0x30ff)) || ((0xff00 <=? c) && (c <=? 0xff9f))
  || ((0x4e00 <=? c) && (c <=? 0x9faf)) || ((0x3400 <=? c) && (c <=? 0x4dbf)).

(** The decimal text of [Date.now()]. *)
Definition decimal (n : Z) : jsstring :=
  js (NilZero.string_of_int (Z.to_int n)).

(** ** The records of the worked examples *)

(** [{productId:"207", productName:"TUXEDO", mainImage:"http://x/1.jpg",
    thumbnailImages:["http://x/2.jpg","http://x/1.jpg"]}] *)
Definition tuxedo : Kadoa.Product :=
  {| Kadoa.productId := Some (js "207");
     Kadoa.productName := Some (js "TUXEDO");
     Kadoa.description := None;
     Kadoa.caution := None;
     Kadoa.material := None;
     Kadoa.color := None;
     Kadoa.size := None;
     Kadoa.fitLevel := None;
     Kadoa.brandName := None;
     Kadoa.mainImage := Some (js "http://x/1.jpg");
     Kadoa.thumbnailImages := Some [js "http://x/2.jpg"; js "http://x/1.jpg"] |}.

(** [{Title: t, Vendor: v}] *)
Definition titleVendor (t v : string) : InputRow :=
  {[ "Title" := js t; "Vendor" := js v ]}.

(** The [Image Src] values a list of rows carries, in row order. *)
Definition imageSrcs (rows : list MatrixifyRow) : list cell :=
  omap (fun r : MatrixifyRow => r !! "Image Src") rows.

(** A parsed CSV row given by its columns. *)
Definition csvRow (fields : list (string * string)) : InputRow :=
  list_to_map ((fun kv => (kv.1, js kv.2)) <$> fields).

(** A second TUXEDO record, with another product id and no images. *)
Definition tuxedoBare : Kadoa.Product :=
  {| Kadoa.productId := Some (js "208");
     Kadoa.productName := Some (js "TUXEDO");
     Kadoa.description := None;
     Kadoa.caution := None;
     Kadoa.material := None;
     Kadoa.color := None;
     Kadoa.size := None;
     Kadoa.fitLevel := None;
     Kadoa.brandName := None;
     Kadoa.mainImage := None;
     Kadoa.thumbnailImages := None |}.

(** Rows of a flexible tabular import. *)
Definition csvTuxedo : InputRow :=
  csvRow [("productId", "207"); ("name", "TUXEDO");
          ("mainImage", "http://x/1.jpg");
          ("thumbnailImages", "http://x/2.jpg;http://x/1.jpg")].

Definition csvTuxedoAgain : InputRow :=
  csvRow [("productId", "207"); ("name", "TUXEDO second entry")].

Definition csvNoImage : InputRow :=
  csvRow [("productId", "207"); ("name", "TUXEDO")].

Definition csvUpperKey : InputRow := csvRow [("productId", "D747"); ("name", "Dress")].
Definition csvLowerKey : InputRow := csvRow [("productId", "d747"); ("name", "Dress")].

(** A key and a name made of symbols only: no handle can be generated. *)
Definition csvSymbols : InputRow := csvRow [("productId", "#"); ("name", "?")].
Definition csvSymbolsNamed : InputRow := csvRow [("productId", "#"); ("name", "Dress")].

(** A row of an existing export whose Handle cell is empty. *)
Definition shopifyBlankHandle : InputRow := csvRow [("Handle", ""); ("Title", "A")].


(** The [Variant SKU] values a list of rows carries, in row order: one per
    primary row. *)
Definition variantSkus (rows : list MatrixifyRow) : list cell :=
  omap (fun r : MatrixifyRow => r !! "Variant SKU") rows.

(** The [Handle] of the rows that carry a [Variant SKU], in row order: the
    handles of the primary rows. *)
Definition primaryHandles (rows : list MatrixifyRow) : list cell :=
  omap (fun r : MatrixifyRow =>
          match r !! "Variant SKU" with
          | Some _ => r !! "Handle"
          | None => None
          end) rows.

(** ** Observations on rows used by the further properties *)

(** The [Image Position] values a list of rows carries, in row order. *)
Definition imagePositions (rows : list MatrixifyRow) : list cell :=
  omap (fun r : MatrixifyRow => r !! "Image Position") rows.

(** The positions [1, 2, ..., n] as cells. *)
Definition positionsUpTo (n : nat) : list cell :=
  (fun i => Num (Z.of_nat i)) <$> seq 1 n.

(** [MATRIXIFY_HEADERS] of [constants.ts]. *)
Definition MATRIXIFY_HEADERS : list string :=
  [ "Handle"; "Title"; "Vendor"; "Published"; "Body (HTML)"; "Tags";
    "Image Src"; "Variant Image"; "Image Position"; "Option1 Name";
    "Option1 Value"; "Variant SKU"; "Variant Price"; "Variant Grams";
    "Variant Inventory Qty"; "Variant Requires Shipping"; "Variant Taxable";
    "Gift Card" ].

(** The default [ShopifyProcessorService] holds for a column, if any. *)
Definition defaultOf (k : string) : option jsstring :=
  (list_to_map Shopify.defaults : gmap string jsstring) !! k.

(** The columns the forward fill of re-projection mode writes. *)
Definition forwardFilled (k : string) : Prop :=
  k = "Title" \/ k = "Vendor" \/ k = "Option1 Name".

(** The [Handle] cells of parsed rows, in row order. *)
Definition handleCells (rows : list InputRow) : list (option jsstring) :=
  (fun r : InputRow => r !! "Handle") <$> rows.

(** A cell that [getCol] passes over: absent, or blank once trimmed. *)
Definition passedOver (r : InputRow) (colName : string) : Prop :=
  forall w, r !! colName = Some w -> trim w = [].

(** A row all of whose properties are columns of the output table. *)
Definition knownColumns (row : MatrixifyRow) : Prop :=
  forall k, is_Some (row !! k) -> k ∈ MATRIXIFY_HEADERS.

(** A slug in plain terms: lower-case letters, digits and hyphens only, no
    two hyphens side by side, no hyphen first or last. *)
Definition wellFormedSlug (s : jsstring) : Prop :=
  Forall (fun c => isLowerAZ c || isDigit c || (c =? HYPHEN) = true) s
  /\ (forall before after, s <> before ++ [HYPHEN; HYPHEN] ++ after)
  /\ head s <> Some HYPHEN
  /\ last s <> Some HYPHEN.

(** The (Handle, Image Src) pairs of the rows that carry an image, in row
    order. *)
Definition handleImagePairs (rows : list MatrixifyRow) : list (option cell * cell) :=
  omap (fun r : MatrixifyRow => (fun src => (r !! "Handle", src)) <$> r !! "Image Src")
       rows.

(** The rows re-projection mode hands to the serialiser, none when the run
    threw or returned the null result. *)
Definition keptRows (o : outcome (option (list InputRow))) : list InputRow :=
  match o with
  | Returned (Some rows) => rows
  | _ => []
  end.

(** A TUXEDO record whose images are pairwise distinct. *)
Definition tuxedoClean : Kadoa.Product :=
  {| Kadoa.productId := Some (js "207");
     Kadoa.productName := Some (js "TUXEDO");
     Kadoa.description := None;
     Kadoa.caution := None;
     Kadoa.material := None;
     Kadoa.color := None;
     Kadoa.size := None;
     Kadoa.fitLevel := None;
     Kadoa.brandName := None;
     Kadoa.mainImage := Some (js "http://x/1.jpg");
     Kadoa.thumbnailImages := Some [js "http://x/2.jpg"; js "http://x/3.jpg"] |}.

(** Rows of an existing export: a product row and a row that leaves Title
    and Vendor to the row above. *)
Definition shopifyFirst : InputRow :=
  csvRow [("Handle", "tuxedo"); ("Title", "TUXEDO"); ("Vendor", "WITH A WISH")].
Definition shopifySecond : InputRow :=
  csvRow [("Handle", "tuxedo"); ("Title", ""); ("Image Src", "http://x/2.jpg")].







(** The [Image Src] cells of the rows whose [Handle] is [h], in row order. *)
Definition imagesOfHandle (h : jsstring) (rows : list MatrixifyRow) : list cell :=
  omap (fun r : MatrixifyRow =>
          match r !! "Handle" with
          | Some (Str h') => if bool_decide (h' = h) then r !! "Image Src" else None
          | _ => None
          end) rows.


(** Boolean character classes as arithmetic facts. *)
Ltac reflect_chars :=
  unfold isSlugChar, isWordChar, isUpperAZ, isLowerAZ, isDigit, isHyphen,
    isSpace, isAscii, lowerAscii, HYPHEN, AMPERSAND, UNDERSCORE in *;
  repeat (progress
    (rewrite ?andb_true_iff, ?orb_true_iff, ?andb_false_iff, ?orb_false_iff,
       ?negb_true_iff, ?negb_false_iff, ?N.leb_le, ?N.leb_gt, ?N.eqb_eq,
       ?N.eqb_neq in *)).

Section Pipeline.

Variable toLowerCase : jsstring -> jsstring.

(** [slugify(text)]: the early return for a falsy text, then the chain
    of replacements on the lower-cased text. *)
Definition slugify (text : option jsstring) : jsstring :=
  match text with
  | None | Some [] => []
  | Some t => slugSteps (toLowerCase t)
  end.

(** *** [JsonProcessorService.processJson] *)

(** [this._slugify(p.productName) || p.productId || ''] *)
Definition jsonHandle (p : Kadoa.Product) : jsstring :=
  match slugify (Kadoa.productName p) with
  | [] => orElse (Kadoa.productId p) []
  | h => h
  end.

Definition productRow (p : Kadoa.Product) : MatrixifyRow :=
  list_to_map
    [ ("Handle", Str (jsonHandle p));
      ("Title", Str (orElse (Kadoa.productName p) []));
      ("Body (HTML)", Str (htmlBody (Kadoa.description p) (Kadoa.caution p)
                                    (Kadoa.material p)));
      ("Vendor", Str (orElse (Kadoa.brandName p) (js "Your-Store")));
      ("Tags", Str (join (js ", ")
                      (filterBoolean [Kadoa.color p; Kadoa.material p; Kadoa.fitLevel p])));
      ("Option1 Name", Str (js "Size"));
      ("Option1 Value", Str (orElse (Kadoa.size p) (js "Default Title")));
      ("Variant SKU", Str (orElse (Kadoa.productId p) []));
      ("Variant Image", Str (orElse (Kadoa.mainImage p) []));
      ("Variant Price", Str (js "0.00"));
      ("Variant Inventory Qty", Num 0);
      ("Variant Grams", Num 0);
      ("Variant Requires Shipping", Str (js "TRUE"));
      ("Variant Taxable", Str (js "TRUE"));
      ("Published", Str (js "TRUE"));
      ("Gift Card", Str (js "FALSE")) ].

(** The rows one record appends when its images are processed. *)
Definition rowsWithImages (p : Kadoa.Product) : list MatrixifyRow :=
  match collectImages p with
  | [] => [productRow p]
  | first :: others =>
      <["Image Position" := Num 1]> (<["Image Src" := Str first]> (productRow p))
      :: imageRows (jsonHandle p) 2 others
  end.

(** The loop state: [rows] and [processedHandlesForImages]. *)
Definition jsonState : Type := list MatrixifyRow * gset jsstring.

(** One iteration of [for (const p of data)]. *)
Definition jsonStep (st : jsonState) (p : Kadoa.Product) : jsonState :=
  if hasImages p && negb (bool_decide (jsonHandle p ∈ st.2))
  then (st.1 ++ rowsWithImages p, {[jsonHandle p]} ∪ st.2)
  else (st.1 ++ [productRow p], st.2).

Definition jsonLoop (data : list Kadoa.Product) : jsonState :=
  foldl jsonStep ([], ∅) data.

Definition processJson (input : decoded) : outcome (list MatrixifyRow) :=
  match input with
  | Malformed => Thrown InvalidJson
  | NullRoot => Thrown UncaughtTypeError
  | NotAnArray => Thrown DataNotArray
  | DataArray data =>
      match (jsonLoop data).1 with
      | [] => Thrown NoProductsInJson
      | rows => Returned rows
      end
  | ThrowingElement => Thrown UncaughtTypeError
  end.

(** *** [CsvProcessorService.processCsv] *)

(** [`${name} - ${styleNo}`] *)
Definition csvTitle (r : InputRow) (styleNo : jsstring) : jsstring :=
  orElse (getCol r Field.name) [] ++ js " - " ++ styleNo.

(** [slugify(title) || slugify(styleNo)] *)
Definition csvHandle (r : InputRow) (styleNo : jsstring) : jsstring :=
  match slugify (Some (csvTitle r styleNo)) with
  | [] => slugify (Some styleNo)
  | h => h
  end.

Definition baseRow (r : InputRow) (styleNo : jsstring) : MatrixifyRow :=
  list_to_map
    [ ("Handle", Str (csvHandle r styleNo));
      ("Title", Str (csvTitle r styleNo));
      ("Body (HTML)", Str (htmlBody (getCol r Field.description)
                                    (getCol r Field.caution)
                                    (getCol r Field.material)));
      ("Vendor", Str (orElse (getCol r Field.brand) (js "Your-Store")));
      ("Tags", Str (join (js ", ")
                      (filterBoolean [getCol r Field.color; getCol r Field.material;
                                      getCol r Field.fit])));
      ("Option1 Name", Str (js "Size"));
      ("Option1 Value", Str (orElse (getCol r Field.size) (js "Default Title")));
      ("Variant SKU", Str styleNo);
      ("Variant Price", Str (js "0.00"));
      ("Variant Inventory Qty", Num 0);
      ("Variant Grams", Num 0);
      ("Variant Requires Shipping", Str (js "TRUE"));
      ("Variant Taxable", Str (js "TRUE"));
      ("Published", Str (js "TRUE"));
      ("Gift Card", Str (js "FALSE")) ].

(** [{...baseRow, 'Image Src': mainImg, 'Variant Image': mainImg,
    'Image Position': 1}] *)
Definition mainVariantRow (r : InputRow) (styleNo : jsstring) : MatrixifyRow :=
  let mainImg := orElse (getCol r Field.main_image) [] in
  <["Image Position" := Num 1]>
    (<["Variant Image" := Str mainImg]>
       (<["Image Src" := Str mainImg]> (baseRow r styleNo))).

(** The rows an accepted record appends: the main variant row, then one
    row per thumbnail with positions from 2. *)
Definition expandCsv (r : InputRow) (styleNo : jsstring) : list MatrixifyRow :=
  mainVariantRow r styleNo :: imageRows (csvHandle r styleNo) 2 (csvThumbs r).

(** The loop state: [outputRows], [seenSkus] and the warnings logged. *)
Record csvState : Type := {
  outputRows : list MatrixifyRow;
  seenSkus : gset jsstring;
  warnings : list diagnostic
}.

Definition skip (st : csvState) (d : diagnostic) : csvState :=
  {| outputRows := outputRows st;
     seenSkus := seenSkus st;
     warnings := warnings st ++ [d] |}.

(** One iteration of [for (const r of inputRows)]. *)
Definition csvStep (st : csvState) (r : InputRow) : csvState :=
  match getCol r Field.product_id with
  | None | Some [] => skip st (MissingProductId r)
  | Some styleNo =>
      if bool_decide (styleNo ∈ seenSkus st) then skip st (DuplicateSku styleNo)
      else match csvHandle r styleNo with
           | [] => skip st (NoHandle r)
           | _ =>
               {| outputRows := outputRows st ++ expandCsv r styleNo;
                  seenSkus := {[styleNo]} ∪ seenSkus st;
                  warnings := warnings st |}
           end
  end.

Definition csvLoop (inputRows : list InputRow) : csvState :=
  foldl csvStep {| outputRows := []; seenSkus := ∅; warnings := [] |} inputRows.

Definition processCsv (inputRows : list InputRow)
  : outcome (list MatrixifyRow) * list diagnostic :=
  match inputRows with
  | [] => (Thrown EmptyCsv, [])
  | _ =>
      let st := csvLoop inputRows in
      match outputRows st with
      | [] => (Thrown NoProductsInCsv, warnings st)
      | rows => (Returned rows, warnings st)
      end
  end.

(** *** [DataExtractorService]: the handle of an extracted record *)

(** [createHandle(name, color)]; [now] is the value [Date.now()] returns. *)
Definition createHandle (now : Z) (name color : jsstring) : jsstring :=
  if negb (truthy (Some name)) && negb (truthy (Some color))
  then js "product-" ++ decimal now
  else List.filter keptInHandle
         (replaceSpaces (toLowerCase (trim (name ++ js " " ++ color)))).

(** The [Handle] and [Title] [processText] formats from the extracted
    record. *)
Definition extractedHandle (now : Z) (e : Raw.ExtractedData) : jsstring :=
  createHandle now (orElse (Raw.productName e) (js "product"))
                   (orElse (Raw.color e) []).

Definition extractedTitle (e : Raw.ExtractedData) : jsstring :=
  trim (orElse (Raw.productName e) [] ++ js " " ++ orElse (Raw.color e) []).

(** *** [ScraperService.processUrlAndHtml]: handle of the scraped record *)

(** [`${productName} - ${sku}`] and its slug. *)
Definition scrapedTitle (d : Scraped.ProductData) : jsstring :=
  Scraped.productName d ++ js " - " ++ Scraped.sku d.

Definition scrapedHandle (d : Scraped.ProductData) : jsstring :=
  slugify (Some (scrapedTitle d)).

(** [price.replace(/[^0-9.]/g, '') || '0.00'] *)
Definition scrapedPrice (d : Scraped.ProductData) : jsstring :=
  orElse (Some (List.filter (fun c => isDigit c || (c =? 46)) (Scraped.price d)))
         (js "0.00").

Definition scrapedMainRow (d : Scraped.ProductData) : MatrixifyRow :=
  <["Image Position" := Num 1]>
    (<["Variant Image" := Str (Scraped.mainImage d)]>
       (<["Image Src" := Str (Scraped.mainImage d)]>
          (list_to_map
             [ ("Handle", Str (scrapedHandle d));
               ("Title", Str (scrapedTitle d));
               ("Body (HTML)", Str (Scraped.description d));
               ("Vendor", Str (Scraped.vendor d));
               ("Tags", Str (join (js ", ")
                               (filterBoolean [Some (Scraped.vendor d);
                                               Scraped.material d; Scraped.color d])));
               ("Option1 Name", Str (js "Size"));
               ("Option1 Value", Str (orElse (Scraped.size d) (js "Default Title")));
               ("Variant SKU", Str (Scraped.sku d));
               ("Variant Price", Str (scrapedPrice d));
               ("Variant Inventory Qty", Num 0);
               ("Variant Grams", Num 0);
               ("Variant Requires Shipping", Str (js "TRUE"));
               ("Variant Taxable", Str (js "TRUE"));
               ("Published", Str (js "TRUE"));
               ("Gift Card", Str (js "FALSE")) ]))).

(** The main variant row, then [allImages[i]] for [i] from 1. *)
Definition scrapedRows (d : Scraped.ProductData) : list MatrixifyRow :=
  scrapedMainRow d :: imageRows (scrapedHandle d) 2 (tail (scrapedImages d)).

(** * Properties *)

(** ** Character classes *)

Lemma slugChar_ascii c : isSlugChar c = true -> isAscii c.
Proof. reflect_chars. lia. Qed.

Lemma slugChar_not_upper c : isSlugChar c = true -> isUpperAZ c = false.
Proof. reflect_chars. lia. Qed.

Lemma slugChar_not_space c : isSlugChar c = true -> isSpace c = false.
Proof. reflect_chars. lia. Qed.

Lemma slugChar_not_amp c : isSlugChar c = true -> (c =? AMPERSAND) = false.
Proof. reflect_chars. lia. Qed.

Lemma slugChar_word c : isSlugChar c = true -> isWordChar c || isHyphen c = true.
Proof. reflect_chars. lia. Qed.

Lemma word_lower_slugChar c :
  isWordChar c || isHyphen c = true -> isUpperAZ c = false -> c <> UNDERSCORE ->
  isSlugChar c = true.
Proof. reflect_chars. lia. Qed.

Lemma lowerAscii_slugChar c : isSlugChar c = true -> lowerAscii c = c.
Proof.
  intros H. unfold lowerAscii. by rewrite (slugChar_not_upper c H).
Qed.

(** ** The transliteration table *)

Lemma indexOf_Some c a i : indexOf c a = Some i -> a !! i = Some c.
Proof.
  revert i. induction a as [|x a IH]; intros i; simpl; [done|].
  destruct (N.eqb_spec x c) as [->|Hne].
  - by intros [= <-].
  - destruct (indexOf c a) as [j|]; simpl; [|done].
    intros [= <-]. by apply IH.
Qed.

Lemma indexOf_None c a : indexOf c a = None -> c ∉ a.
Proof.
  induction a as [|x a IH]; simpl; [intros _; apply not_elem_of_nil|].
  destruct (N.eqb_spec x c) as [->|Hne]; [done|].
  destruct (indexOf c a); simpl; [done|].
  intros _. rewrite elem_of_cons. intros [->|Hin]; [done|]. by apply IH.
Qed.

Lemma table_a_no_slugChar : Forall (fun c => isSlugChar c = false) table_a.
Proof. unfold table_a. repeat constructor. Qed.

Lemma table_b_lower : Forall (fun c => isUpperAZ c = false /\ c <> UNDERSCORE) table_b.
Proof. unfold table_b. simpl. repeat constructor; done. Qed.

Lemma replaceTable_slug s :
  Forall (fun c => isSlugChar c = true) s -> replaceTable s = s.
Proof.
  unfold replaceTable. induction 1 as [|c s Hc Hs IH]; cbn [flat_map]; [done|].
  rewrite IH. destruct (indexOf c table_a) as [i|] eqn:Hi; [|done].
  apply indexOf_Some, list_elem_of_lookup_2 in Hi.
  pose proof (proj1 (Forall_forall _ _) table_a_no_slugChar c Hi). congruence.
Qed.

Lemma replaceTable_lower s :
  Forall (fun c => isUpperAZ c = false) s ->
  Forall (fun c => isUpperAZ c = false /\ c <> UNDERSCORE) (replaceTable s).
Proof.
  unfold replaceTable. induction 1 as [|c s Hc Hs IH]; cbn [flat_map]; [constructor|].
  apply Forall_app. split; [|done].
  destruct (indexOf c table_a) as [i|] eqn:Hi.
  - unfold charAt. destruct (table_b !! i) as [x|] eqn:Hx; [|constructor].
    repeat constructor;
      apply (proj1 (Forall_forall _ _) table_b_lower x),
            (list_elem_of_lookup_2 _ _ _ Hx).
  - apply indexOf_None in Hi. repeat constructor; [done|].
    intros ->. apply Hi. unfold table_a, UNDERSCORE.
    apply list_elem_of_In. vm_compute. tauto.
Qed.

(** ** The replacement steps, one by one *)

Lemma replaceSpaces_Forall (P : N -> Prop) s :
  P HYPHEN -> Forall P s -> Forall P (replaceSpaces s).
Proof.
  intros HP. induction 1 as [|c s Hc Hs IH]; simpl; [constructor|].
  destruct (isSpace c).
  - destruct s as [|c' s']; [by repeat constructor|].
    destruct (isSpace c'); [done|]. by constructor.
  - by constructor.
Qed.

Lemma replaceSpaces_slug s :
  Forall (fun c => isSlugChar c = true) s -> replaceSpaces s = s.
Proof.
  induction 1 as [|c s Hc Hs IH]; simpl; [done|].
  by rewrite (slugChar_not_space c Hc), IH.
Qed.

Lemma replaceAmp_Forall (P : N -> Prop) s :
  Forall P (js "-and-") -> Forall P s -> Forall P (replaceAmp s).
Proof.
  intros HP. unfold replaceAmp. induction 1 as [|c s Hc Hs IH]; cbn [flat_map]; [constructor|].
  apply Forall_app. split; [|done]. destruct (c =? AMPERSAND); [done|by repeat constructor].
Qed.

Lemma replaceAmp_slug s :
  Forall (fun c => isSlugChar c = true) s -> replaceAmp s = s.
Proof.
  unfold replaceAmp. induction 1 as [|c s Hc Hs IH]; cbn [flat_map]; [done|].
  by rewrite (slugChar_not_amp c Hc), IH.
Qed.

Lemma stripNonWord_slugChars s :
  Forall (fun c => isUpperAZ c = false /\ c <> UNDERSCORE) s ->
  Forall (fun c => isSlugChar c = true) (stripNonWord s).
Proof.
  unfold stripNonWord. induction 1 as [|c s [Hu Hn] Hs IH]; simpl; [constructor|].
  destruct (isWordChar c || isHyphen c) eqn:Hw; [|done].
  constructor; [|done]. by apply word_lower_slugChar.
Qed.

Lemma stripNonWord_slug s :
  Forall (fun c => isSlugChar c = true) s -> stripNonWord s = s.
Proof.
  unfold stripNonWord. induction 1 as [|c s Hc Hs IH]; simpl; [done|].
  by rewrite (slugChar_word c Hc), IH.
Qed.

Lemma collapseHyphens_Forall (P : N -> Prop) s :
  Forall P s -> Forall P (collapseHyphens s).
Proof.
  induction 1 as [|c s Hc Hs IH]; simpl; [constructor|].
  destruct (isHyphen c).
  - destruct s as [|c' s']; [by repeat constructor|].
    destruct (isHyphen c'); [done|]. by constructor.
  - by constructor.
Qed.

Lemma noDoubleHyphen_cons c c' s :
  noDoubleHyphen (c :: c' :: s)
  = negb (isHyphen c && isHyphen c') && noDoubleHyphen (c' :: s).
Proof. reflexivity. Qed.

Lemma collapseHyphens_noDouble s : noDoubleHyphen (collapseHyphens s) = true.
Proof.
  induction s as [|c s IH]; [done|].
  cbn [collapseHyphens]. destruct (isHyphen c) eqn:Hc.
  - destruct s as [|c' s']; [done|].
    destruct (isHyphen c') eqn:Hc'; [done|].
    cbn [collapseHyphens] in *. rewrite Hc' in *.
    by rewrite noDoubleHyphen_cons, Hc, Hc', IH.
  - destruct (collapseHyphens s) as [|x r]; [done|].
    by rewrite noDoubleHyphen_cons, Hc, IH.
Qed.

Lemma collapseHyphens_fixed s : noDoubleHyphen s = true -> collapseHyphens s = s.
Proof.
  induction s as [|c s IH]; [done|]. destruct s as [|c' s'].
  - intros _. simpl. by destruct (isHyphen c).
  - rewrite noDoubleHyphen_cons, andb_true_iff, negb_true_iff. intros [Hcc Hs].
    change (collapseHyphens (c :: c' :: s'))
      with (if isHyphen c
            then if isHyphen c' then collapseHyphens (c' :: s')
                 else c :: collapseHyphens (c' :: s')
            else c :: collapseHyphens (c' :: s')).
    rewrite (IH Hs). destruct (isHyphen c); [|done].
    simpl in Hcc. by rewrite Hcc.
Qed.

Lemma trimHyphensStart_Forall (P : N -> Prop) s :
  Forall P s -> Forall P (trimHyphensStart s).
Proof.
  induction 1 as [|c s Hc Hs IH]; simpl; [constructor|].
  destruct (isHyphen c); [done|by constructor].
Qed.

Lemma trimHyphensEnd_Forall (P : N -> Prop) s :
  Forall P s -> Forall P (trimHyphensEnd s).
Proof.
  induction 1 as [|c s Hc Hs IH]; simpl; [constructor|].
  destruct (trimHyphensEnd s) as [|x r].
  - destruct (isHyphen c); by repeat constructor.
  - by constructor.
Qed.

Lemma noDoubleHyphen_tail c s : noDoubleHyphen (c :: s) = true -> noDoubleHyphen s = true.
Proof.
  destruct s; [done|]. rewrite noDoubleHyphen_cons, andb_true_iff. tauto.
Qed.

Lemma trimHyphensStart_noDouble s :
  noDoubleHyphen s = true -> noDoubleHyphen (trimHyphensStart s) = true.
Proof.
  induction s as [|c s IH]; [done|]. intros H. simpl.
  destruct (isHyphen c); [|done]. eapply IH, noDoubleHyphen_tail, H.
Qed.

Lemma trimHyphensEnd_noDouble s :
  noDoubleHyphen s = true -> noDoubleHyphen (trimHyphensEnd s) = true.
Proof.
  induction s as [|c s IH]; [done|]. intros H.
  pose proof (IH (noDoubleHyphen_tail _ _ H)) as IH'.
  cbn [trimHyphensEnd]. destruct (trimHyphensEnd s) as [|x r] eqn:Hr.
  - by destruct (isHyphen c).
  - rewrite noDoubleHyphen_cons, IH', andb_true_r.
    destruct s as [|c' s']; [done|].
    rewrite noDoubleHyphen_cons in H. apply andb_true_iff in H as [H _].
    cbn [trimHyphensEnd] in Hr.
    assert (x = c') as ->; [|done].
    destruct (trimHyphensEnd s'); [destruct (isHyphen c')|]; by simplify_eq.
Qed.

Lemma trimHyphensStart_fixed s : trimHyphensStart (trimHyphensStart s) = trimHyphensStart s.
Proof.
  induction s as [|c s IH]; [done|]. simpl.
  destruct (isHyphen c) eqn:Hc; [done|]. simpl. by rewrite Hc.
Qed.

Lemma trimHyphensEnd_cons c s :
  trimHyphensEnd (c :: s)
  = match trimHyphensEnd s with
    | [] => if isHyphen c then [] else [c]
    | r => c :: r
    end.
Proof. reflexivity. Qed.

Lemma trimHyphensEnd_fixed s : trimHyphensEnd (trimHyphensEnd s) = trimHyphensEnd s.
Proof.
  induction s as [|c s IH]; [done|]. rewrite trimHyphensEnd_cons.
  destruct (trimHyphensEnd s) as [|x r] eqn:Hr.
  - destruct (isHyphen c) eqn:Hc; [done|]. simpl. by rewrite Hc.
  - by rewrite trimHyphensEnd_cons, IH.
Qed.

Lemma trimHyphensEnd_keeps_start s :
  trimHyphensStart s = s -> trimHyphensStart (trimHyphensEnd s) = trimHyphensEnd s.
Proof.
  destruct s as [|c s]; [done|]. cbn [trimHyphensStart].
  destruct (isHyphen c) eqn:Hc.
  - intros H. exfalso.
    assert (Hlen : forall t, (length (trimHyphensStart t) <= length t)%nat).
    { induction t as [|x t IHt]; simpl; [lia|]. destruct (isHyphen x); simpl; lia. }
    specialize (Hlen s). rewrite H in Hlen. simpl in Hlen. lia.
  - intros _. cbn [trimHyphensEnd]. destruct (trimHyphensEnd s).
    + rewrite Hc. simpl. by rewrite Hc.
    + simpl. by rewrite Hc.
Qed.

(** ** Structured-array mode *)

(** *** The image list *)

Lemma pushThumb_NoDup acc thumb : NoDup acc -> NoDup (pushThumb acc thumb).
Proof.
  intros H. unfold pushThumb, includes.
  destruct (truthy (Some thumb)); [|done]. case_bool_decide; [done|].
  apply NoDup_app. split_and!; [done| |apply NoDup_singleton].
  intros x Hx Hx'. apply list_elem_of_singleton in Hx'. by subst.
Qed.

Lemma pushThumb_elem acc thumb u :
  u ∈ pushThumb acc thumb <-> u ∈ acc \/ (u = thumb /\ u <> []).
Proof.
  unfold pushThumb, includes, truthy. destruct thumb as [|c t]; cbn [andb].
  - intuition (simplify_eq; eauto).
  - case_bool_decide; cbn [negb].
    + intuition (simplify_eq; eauto).
    + rewrite elem_of_app, list_elem_of_singleton. intuition (simplify_eq; eauto).
Qed.


Lemma collect_NoDup thumbs : forall acc, NoDup acc -> NoDup (foldl pushThumb acc thumbs).
Proof.
  induction thumbs as [|t thumbs IH]; intros acc H; [done|].
  cbn [foldl]. by apply IH, pushThumb_NoDup.
Qed.

Lemma collect_elem thumbs : forall acc u,
  u ∈ foldl pushThumb acc thumbs <-> u ∈ acc \/ (u ∈ thumbs /\ u <> []).
Proof.
  induction thumbs as [|t thumbs IH]; intros acc u; cbn [foldl].
  - rewrite elem_of_nil. intuition (simplify_eq; eauto).
  - rewrite IH, pushThumb_elem, elem_of_cons. intuition (simplify_eq; eauto).
Qed.


Lemma imageRow_src handle first i url :
  imageRow handle first i url !! "Image Src" = Some (Str url).
Proof. reflexivity. Qed.

Lemma imageRow_handle handle first i url :
  imageRow handle first i url !! "Handle" = Some (Str handle).
Proof. reflexivity. Qed.

Lemma imageSrcs_imageRows handle first urls :
  imageSrcs (imageRows handle first urls) = Str <$> urls.
Proof.
  unfold imageSrcs, imageRows. revert first.
  induction urls as [|u urls IH]; intros first; [done|].
  cbn [imap omap list_omap fmap list_fmap]. rewrite imageRow_src. f_equal.
  rewrite <- (IH (1 + first)%Z). f_equal. apply imap_ext.
  intros i x _. unfold imageRow, compose. do 4 f_equal. lia.
Qed.

Lemma productRow_no_image p :
  productRow p !! "Image Src" = None /\ productRow p !! "Image Position" = None.
Proof. split; reflexivity. Qed.

Lemma imageSrcs_rowsWithImages p :
  imageSrcs (rowsWithImages p) = Str <$> collectImages p.
Proof.
  unfold rowsWithImages. destruct (collectImages p) as [|first others].
  - unfold imageSrcs. cbn [omap list_omap]. by rewrite (proj1 (productRow_no_image p)).
  - change (imageSrcs (?r :: ?rs)) with
      (match r !! "Image Src" with Some x => x :: imageSrcs rs | None => imageSrcs rs end).
    rewrite lookup_insert_ne, lookup_insert_eq by done.
    by rewrite imageSrcs_imageRows.
Qed.

(** *** The record loop *)

Lemma jsonLoop_snoc pre p : jsonLoop (pre ++ [p]) = jsonStep (jsonLoop pre) p.
Proof. unfold jsonLoop. by rewrite foldl_app. Qed.

(** [processedHandlesForImages] holds the handles of the records so far
    that carried images. *)
Lemma jsonLoop_seen pre h :
  h ∈ (jsonLoop pre).2 <->
  exists q, q ∈ pre /\ hasImages q = true /\ jsonHandle q = h.
Proof.
  induction pre as [|p pre IH] using rev_ind.
  - unfold jsonLoop. cbn [foldl snd]. split; [set_solver|].
    intros (q & Hq & _). by apply elem_of_nil in Hq.
  - rewrite jsonLoop_snoc. unfold jsonStep.
    destruct (hasImages p) eqn:Hp; cbn [andb];
      [case_bool_decide as Hin; cbn [negb]|]; cbn [snd].
    + rewrite IH. split.
      * intros (q & Hq & ?). exists q. rewrite elem_of_app. tauto.
      * intros (q & Hq & Hi & Hh). apply elem_of_app in Hq as [Hq|Hq]; [by eauto|].
        apply list_elem_of_singleton in Hq as ->. subst h. by apply IH.
    + rewrite elem_of_union, elem_of_singleton, IH. split.
      * intros [->|(q & Hq & ?)].
        -- exists p. rewrite elem_of_app, list_elem_of_singleton. tauto.
        -- exists q. rewrite elem_of_app. tauto.
      * intros (q & Hq & Hi & Hh). apply elem_of_app in Hq as [Hq|Hq]; [by eauto|].
        apply list_elem_of_singleton in Hq as ->. by left.
    + rewrite IH. split.
      * intros (q & Hq & ?). exists q. rewrite elem_of_app. tauto.
      * intros (q & Hq & Hi & Hh). apply elem_of_app in Hq as [Hq|Hq]; [by eauto|].
        apply list_elem_of_singleton in Hq as ->. congruence.
Qed.

Lemma collectImages_hasImages p : collectImages p <> [] -> hasImages p = true.
Proof.
  unfold collectImages, hasImages.
  destruct (Kadoa.mainImage p) as [[|c m]|], (Kadoa.thumbnailImages p) as [[|t ts]|];
    done.
Qed.

(** C10 (amended): in structured-array mode a record whose Handle was
    produced earlier in the run by a record with a main image or a
    non-empty thumbnail array is not discarded: its primary row, with
    Title, Body, Tags and the Variant fields, is appended, with neither
    Image Src nor Image Position, and no continuation row follows.  A
    record whose collected image list is not empty and whose Handle was
    produced earlier only by records with neither a main image nor a
    non-empty thumbnail array gets its first image as Image Src with Image
    Position 1 on the primary row, and one continuation row for each
    further image. *)
Theorem repeated_handle_keeps_primary_row (pre : list Kadoa.Product) (p : Kadoa.Product) :
  ((exists q, q ∈ pre /\ hasImages q = true /\ jsonHandle q = jsonHandle p) ->
   (jsonLoop (pre ++ [p])).1 = (jsonLoop pre).1 ++ [productRow p]
   /\ (jsonLoop (pre ++ [p])).2 = (jsonLoop pre).2
   /\ productRow p !! "Image Src" = None
   /\ productRow p !! "Image Position" = None
   /\ productRow p !! "Handle" = Some (Str (jsonHandle p))
   /\ productRow p !! "Title" = Some (Str (orElse (Kadoa.productName p) []))
   /\ is_Some (productRow p !! "Body (HTML)")
   /\ is_Some (productRow p !! "Tags")
   /\ is_Some (productRow p !! "Variant SKU")
   /\ is_Some (productRow p !! "Variant Image"))
  /\ (forall first others,
        collectImages p = first :: others ->
        (forall q, q ∈ pre -> jsonHandle q = jsonHandle p -> hasImages q = false) ->
        (jsonLoop (pre ++ [p])).1
        = (jsonLoop pre).1
          ++ <["Image Position" := Num 1]>
               (<["Image Src" := Str first]> (productRow p))
             :: imageRows (jsonHandle p) 2 others).
Proof.
  rewrite jsonLoop_snoc. unfold jsonStep. split.
  - intros Hseen. apply jsonLoop_seen in Hseen.
    rewrite (bool_decide_eq_true_2 _ Hseen), andb_false_r. cbn [fst snd].
    repeat split; try reflexivity; by eexists.
  - intros first others Himgs Hfresh.
    rewrite (collectImages_hasImages p) by (by rewrite Himgs).
    rewrite bool_decide_eq_false_2.
    + cbn [andb negb fst]. unfold rowsWithImages. by rewrite Himgs.
    + intros (q & Hq & Hi & Hh)%jsonLoop_seen.
      specialize (Hfresh q Hq Hh). congruence.
Qed.

(** What one iteration appends when the image list is empty. *)
Lemma jsonStep_no_images st p :
  collectImages p = [] -> (jsonStep st p).1 = st.1 ++ [productRow p].
Proof.
  intros H. unfold jsonStep, rowsWithImages. rewrite H. by destruct (_ && _).
Qed.

(** ** Flexible tabular mode *)


Lemma mainVariantRow_fields r styleNo :
  mainVariantRow r styleNo !! "Image Src"
    = Some (Str (orElse (getCol r Field.main_image) []))
  /\ mainVariantRow r styleNo !! "Image Position" = Some (Num 1)
  /\ mainVariantRow r styleNo !! "Variant SKU" = Some (Str styleNo)
  /\ mainVariantRow r styleNo !! "Handle" = Some (Str (csvHandle r styleNo)).
Proof. repeat split; reflexivity. Qed.


Lemma variantSkus_app rows rows' :
  variantSkus (rows ++ rows') = variantSkus rows ++ variantSkus rows'.
Proof. unfold variantSkus. apply omap_app. Qed.

Lemma variantSkus_imageRows handle first urls :
  variantSkus (imageRows handle first urls) = [].
Proof.
  unfold variantSkus, imageRows. revert first.
  induction urls as [|u urls IH]; intros first; [done|].
  cbn [imap omap list_omap].
  change (imageRow handle first 0 u !! "Variant SKU") with (@None cell).
  rewrite <- (IH (1 + first)%Z). f_equal. apply imap_ext.
  intros i x _. unfold imageRow, compose. do 4 f_equal. lia.
Qed.

Lemma variantSkus_expandCsv r styleNo : variantSkus (expandCsv r styleNo) = [Str styleNo].
Proof.
  unfold expandCsv.
  change (variantSkus (?x :: ?rs)) with
    (match x !! "Variant SKU" with Some c => c :: variantSkus rs | None => variantSkus rs end).
  destruct (mainVariantRow_fields r styleNo) as (_ & _ & -> & _).
  by rewrite variantSkus_imageRows.
Qed.

Lemma csvLoop_snoc pre r : csvLoop (pre ++ [r]) = csvStep (csvLoop pre) r.
Proof. unfold csvLoop. by rewrite foldl_app. Qed.

Lemma csvLoop_app pre post : csvLoop (pre ++ post) = foldl csvStep (csvLoop pre) post.
Proof. unfold csvLoop. by rewrite foldl_app. Qed.

(** The three ways one iteration can go. *)
Lemma csvStep_cases st r :
  (outputRows (csvStep st r) = outputRows st
   /\ seenSkus (csvStep st r) = seenSkus st
   /\ (exists d, warnings (csvStep st r) = warnings st ++ [d])
   /\ (getCol r Field.product_id = None
       \/ (exists k, getCol r Field.product_id = Some k
                     /\ (k ∈ seenSkus st \/ csvHandle r k = []))))
  \/ (exists k, getCol r Field.product_id = Some k
                /\ (k ∉ seenSkus st) /\ csvHandle r k <> []
                /\ outputRows (csvStep st r) = outputRows st ++ expandCsv r k
                /\ seenSkus (csvStep st r) = {[k]} ∪ seenSkus st
                /\ warnings (csvStep st r) = warnings st).
Proof.
  unfold csvStep.
  assert (Hne : forall v, getCol r Field.product_id = Some v -> v <> []).
  { unfold getCol. generalize (COLUMN_MAP Field.product_id).
    induction l as [|c l IH]; intros v; cbn [firstNonBlank]; [done|].
    destruct (r !! c) as [w|]; [|by apply IH].
    destruct (trim w) eqn:Hw; [by apply IH|]. intros [= <-]. by intros ->. }
  destruct (getCol r Field.product_id) as [[|c k]|] eqn:Hk.
  - by specialize (Hne [] eq_refl).
  - case_bool_decide as Hseen.
    + left. cbn. split_and!; eauto.
    + destruct (csvHandle r (c :: k)) eqn:Hh.
      * left. cbn. split_and!; eauto.
      * right. exists (c :: k). cbn. rewrite Hh. split_and!; done.
  - left. cbn. split_and!; eauto.
Qed.

(** [seenSkus] holds the keys of the records so far that have a key and a
    handle. *)
Lemma csvLoop_seen pre k :
  k ∈ seenSkus (csvLoop pre) <->
  exists r, r ∈ pre /\ getCol r Field.product_id = Some k /\ csvHandle r k <> [].
Proof.
  induction pre as [|r pre IH] using rev_ind.
  - unfold csvLoop. cbn. split; [set_solver|].
    intros (q & Hq & _). by apply elem_of_nil in Hq.
  - rewrite csvLoop_snoc.
    destruct (csvStep_cases (csvLoop pre) r)
      as [(_ & -> & _ & Hwhy)|(k' & Hk' & Hfresh & Hh & _ & -> & _)].
    + rewrite IH. split.
      * intros (q & Hq & ?). exists q. rewrite elem_of_app. tauto.
      * intros (q & Hq & Hkq & Hhq). apply elem_of_app in Hq as [Hq|Hq]; [by eauto|].
        apply list_elem_of_singleton in Hq as ->. apply IH.
        destruct Hwhy as [Hn|(k'' & Hk'' & Hw)]; [congruence|].
        assert (k'' = k) as -> by congruence. destruct Hw; [done|congruence].
    + rewrite elem_of_union, elem_of_singleton, IH. split.
      * intros [->|(q & Hq & ?)].
        -- exists r. rewrite elem_of_app, list_elem_of_singleton. tauto.
        -- exists q. rewrite elem_of_app. tauto.
      * intros (q & Hq & Hkq & Hhq). apply elem_of_app in Hq as [Hq|Hq]; [by eauto|].
        apply list_elem_of_singleton in Hq as ->. left. congruence.
Qed.

(** Two states with the same rows and the same set go on in the same way:
    the warnings do not steer the loop. *)
Lemma csvStep_same_rows st st' r :
  outputRows st = outputRows st' -> seenSkus st = seenSkus st' ->
  outputRows (csvStep st r) = outputRows (csvStep st' r)
  /\ seenSkus (csvStep st r) = seenSkus (csvStep st' r).
Proof.
  intros Ho Hs. unfold csvStep, skip.
  destruct (getCol r Field.product_id) as [[|c k]|]; cbn; try done.
  rewrite Hs. case_bool_decide; cbn; [done|].
  destruct (csvHandle r (c :: k)); cbn; by rewrite ?Ho, ?Hs.
Qed.

Lemma csvFold_same_rows post : forall st st',
  outputRows st = outputRows st' -> seenSkus st = seenSkus st' ->
  outputRows (foldl csvStep st post) = outputRows (foldl csvStep st' post).
Proof.
  induction post as [|r post IH]; intros st st' Ho Hs; [done|].
  cbn [foldl]. destruct (csvStep_same_rows st st' r Ho Hs). by apply IH.
Qed.

(** A skipped record leaves the output as if it had not been there. *)
Lemma csvLoop_skipped pre r post :
  outputRows (csvStep (csvLoop pre) r) = outputRows (csvLoop pre) ->
  seenSkus (csvStep (csvLoop pre) r) = seenSkus (csvLoop pre) ->
  outputRows (csvLoop (pre ++ r :: post)) = outputRows (csvLoop (pre ++ post)).
Proof.
  intros Ho Hs. rewrite !csvLoop_app. cbn [foldl]. by apply csvFold_same_rows.
Qed.

Lemma getCol_nonempty r key v : getCol r key = Some v -> v <> [].
Proof.
  unfold getCol. generalize (COLUMN_MAP key).
  induction l as [|c l IH]; cbn [firstNonBlank]; [done|].
  destruct (r !! c) as [w|]; [|done].
  destruct (trim w) eqn:Hw; [done|]. intros [= <-]. by intros ->.
Qed.

Lemma csvStep_missing st r :
  getCol r Field.product_id = None -> csvStep st r = skip st (MissingProductId r).
Proof. intros H. unfold csvStep. by rewrite H. Qed.

Lemma csvStep_duplicate st r k :
  getCol r Field.product_id = Some k -> k ∈ seenSkus st ->
  csvStep st r = skip st (DuplicateSku k).
Proof.
  intros H Hin. unfold csvStep. rewrite H.
  destruct k; [by apply getCol_nonempty in H|]. by rewrite bool_decide_eq_true_2.
Qed.

Lemma csvStep_no_handle st r k :
  getCol r Field.product_id = Some k -> k ∉ seenSkus st -> csvHandle r k = [] ->
  csvStep st r = skip st (NoHandle r).
Proof.
  intros H Hin Hh. unfold csvStep. rewrite H.
  destruct k; [by apply getCol_nonempty in H|].
  by rewrite bool_decide_eq_false_2, Hh.
Qed.

Lemma csvStep_accept st r k :
  getCol r Field.product_id = Some k -> k ∉ seenSkus st -> csvHandle r k <> [] ->
  csvStep st r = {| outputRows := outputRows st ++ expandCsv r k;
                    seenSkus := {[k]} ∪ seenSkus st;
                    warnings := warnings st |}.
Proof.
  intros H Hin Hh. unfold csvStep. rewrite H.
  destruct k; [by apply getCol_nonempty in H|].
  rewrite bool_decide_eq_false_2 by done. by destruct (csvHandle r (n :: k)).
Qed.

(** C7 (amended): in flexible tabular mode, among the records with the same
    resolved business key only the first one for which a handle can be
    generated is expanded into output rows, and it marks the key as seen.
    A record whose key was already expanded is skipped entirely (the output
    is what it is without that record); a record whose key resolves to
    blank, and a record with a key but no handle, are skipped in the same
    way, the latter without marking its key.  Each skip logs one warning
    and lets the loop go on. *)
Theorem first_usable_occurrence_wins (pre : list InputRow) (r : InputRow)
    (post : list InputRow) :
  (getCol r Field.product_id = None ->
     outputRows (csvLoop (pre ++ r :: post)) = outputRows (csvLoop (pre ++ post))
     /\ seenSkus (csvLoop (pre ++ [r])) = seenSkus (csvLoop pre)
     /\ warnings (csvLoop (pre ++ [r])) = warnings (csvLoop pre) ++ [MissingProductId r])
  /\ (forall k, getCol r Field.product_id = Some k ->
        (exists r', r' ∈ pre /\ getCol r' Field.product_id = Some k
                    /\ csvHandle r' k <> []) ->
        outputRows (csvLoop (pre ++ r :: post)) = outputRows (csvLoop (pre ++ post))
        /\ seenSkus (csvLoop (pre ++ [r])) = seenSkus (csvLoop pre)
        /\ warnings (csvLoop (pre ++ [r])) = warnings (csvLoop pre) ++ [DuplicateSku k])
  /\ (forall k, getCol r Field.product_id = Some k -> csvHandle r k = [] ->
        (forall r', r' ∈ pre -> getCol r' Field.product_id = Some k ->
                    csvHandle r' k = []) ->
        outputRows (csvLoop (pre ++ r :: post)) = outputRows (csvLoop (pre ++ post))
        /\ seenSkus (csvLoop (pre ++ [r])) = seenSkus (csvLoop pre)
        /\ warnings (csvLoop (pre ++ [r])) = warnings (csvLoop pre) ++ [NoHandle r])
  /\ (forall k, getCol r Field.product_id = Some k -> csvHandle r k <> [] ->
        (forall r', r' ∈ pre -> getCol r' Field.product_id = Some k ->
                    csvHandle r' k = []) ->
        outputRows (csvLoop (pre ++ [r])) = outputRows (csvLoop pre) ++ expandCsv r k
        /\ seenSkus (csvLoop (pre ++ [r])) = {[k]} ∪ seenSkus (csvLoop pre)
        /\ warnings (csvLoop (pre ++ [r])) = warnings (csvLoop pre)).
Proof.
  assert (Hfresh : forall k,
            (forall r', r' ∈ pre -> getCol r' Field.product_id = Some k ->
                        csvHandle r' k = []) ->
            k ∉ seenSkus (csvLoop pre)).
  { intros k Hfirst (r' & Hr' & Hk' & Hh')%csvLoop_seen. by apply Hh', Hfirst. }
  split_and!.
  - intros Hk. split_and!.
    + apply csvLoop_skipped; by rewrite csvStep_missing.
    + by rewrite csvLoop_snoc, csvStep_missing.
    + by rewrite csvLoop_snoc, csvStep_missing.
  - intros k Hk Hseen%csvLoop_seen. split_and!.
    + apply csvLoop_skipped; by rewrite (csvStep_duplicate _ _ k).
    + by rewrite csvLoop_snoc, (csvStep_duplicate _ _ k).
    + by rewrite csvLoop_snoc, (csvStep_duplicate _ _ k).
  - intros k Hk Hh Hfirst%Hfresh. split_and!.
    + apply csvLoop_skipped; by rewrite (csvStep_no_handle _ _ k).
    + by rewrite csvLoop_snoc, (csvStep_no_handle _ _ k).
    + by rewrite csvLoop_snoc, (csvStep_no_handle _ _ k).
  - intros k Hk Hh Hfirst%Hfresh. rewrite csvLoop_snoc.
    by rewrite (csvStep_accept _ _ k).
Qed.

(** The keys of the primary rows are the keys in [seenSkus], once each. *)
Lemma csvLoop_skus inputRows :
  NoDup (variantSkus (outputRows (csvLoop inputRows)))
  /\ forall k, Str k ∈ variantSkus (outputRows (csvLoop inputRows)) ->
               k ∈ seenSkus (csvLoop inputRows).
Proof.
  induction inputRows as [|r pre [IHn IHs]] using rev_ind.
  - unfold csvLoop. cbn. split; [constructor|]. intros k Hk. by apply elem_of_nil in Hk.
  - rewrite csvLoop_snoc.
    destruct (csvStep_cases (csvLoop pre) r)
      as [(-> & -> & _)|(k' & Hk' & Hfresh & Hh & -> & -> & _)]; [done|].
    rewrite variantSkus_app, variantSkus_expandCsv. split.
    + apply NoDup_app. split_and!; [done| |apply NoDup_singleton].
      intros x Hx ->%list_elem_of_singleton. by apply Hfresh, IHs.
    + intros k. rewrite elem_of_app, list_elem_of_singleton, elem_of_union,
        elem_of_singleton. intros [Hk|[= ->]]; [right; by apply IHs|by left].
Qed.

Lemma primaryHandles_app rows rows' :
  primaryHandles (rows ++ rows') = primaryHandles rows ++ primaryHandles rows'.
Proof. unfold primaryHandles. apply omap_app. Qed.

Lemma primaryHandles_cons (r : MatrixifyRow) rows :
  primaryHandles (r :: rows)
  = match r !! "Variant SKU", r !! "Handle" with
    | Some _, Some h => h :: primaryHandles rows
    | _, _ => primaryHandles rows
    end.
Proof.
  unfold primaryHandles. cbn [omap list_omap].
  by destruct (r !! "Variant SKU"), (r !! "Handle").
Qed.

Lemma primaryHandles_no_sku rows : variantSkus rows = [] -> primaryHandles rows = [].
Proof.
  induction rows as [|r rows IH]; [done|].
  rewrite primaryHandles_cons. unfold variantSkus. cbn [omap list_omap].
  destruct (r !! "Variant SKU"); [done|]. exact IH.
Qed.

Lemma primaryHandles_expandCsv r k :
  primaryHandles (expandCsv r k) = [Str (csvHandle r k)].
Proof.
  unfold expandCsv. rewrite primaryHandles_cons.
  destruct (mainVariantRow_fields r k) as (_ & _ & -> & ->).
  by rewrite (primaryHandles_no_sku _ (variantSkus_imageRows _ _ _)).
Qed.

Lemma primaryHandles_rowsWithImages p :
  primaryHandles (rowsWithImages p) = [Str (jsonHandle p)].
Proof.
  unfold rowsWithImages. destruct (collectImages p) as [|first others]; [done|].
  rewrite primaryHandles_cons. rewrite !lookup_insert_ne by done.
  change (productRow p !! "Variant SKU")
    with (Some (Str (orElse (Kadoa.productId p) []))).
  change (productRow p !! "Handle") with (Some (Str (jsonHandle p))).
  by rewrite (primaryHandles_no_sku _ (variantSkus_imageRows _ _ _)).
Qed.

Lemma jsonLoop_primaryHandles data :
  primaryHandles (jsonLoop data).1 = (fun p => Str (jsonHandle p)) <$> data.
Proof.
  induction data as [|p pre IH] using rev_ind; [done|].
  rewrite jsonLoop_snoc, fmap_app. cbn [fmap list_fmap]. rewrite <- IH.
  assert (Hrow : primaryHandles [productRow p] = [Str (jsonHandle p)]) by reflexivity.
  pose proof (primaryHandles_rowsWithImages p) as Himg.
  unfold jsonStep. destruct (_ && _); cbn [fst]; rewrite primaryHandles_app; congruence.
Qed.

Lemma rowsOf_processJson data : rowsOf (processJson (DataArray data)) = (jsonLoop data).1.
Proof. unfold processJson. by destruct (jsonLoop data).1. Qed.

Lemma rowsOf_processCsv r rest :
  rowsOf (processCsv (r :: rest)).1 = outputRows (csvLoop (r :: rest)).
Proof. unfold processCsv. by destruct (outputRows (csvLoop (r :: rest))). Qed.

Lemma csvLoop_two_accepted r1 r2 k1 k2 :
  getCol r1 Field.product_id = Some k1 -> getCol r2 Field.product_id = Some k2 ->
  k1 <> k2 -> csvHandle r1 k1 <> [] -> csvHandle r2 k2 <> [] ->
  outputRows (csvLoop [r1; r2]) = expandCsv r1 k1 ++ expandCsv r2 k2.
Proof.
  intros H1 H2 Hk Hh1 Hh2. unfold csvLoop. cbn [foldl].
  rewrite (csvStep_accept _ r1 k1) by (done || set_solver).
  rewrite (csvStep_accept _ r2 k2); [done..| |done].
  cbn [seenSkus]. set_solver.
Qed.

(** C6 (amended): uniqueness within a run is enforced on the business key,
    not on the Handle.  In flexible tabular mode no business key appears on
    two primary rows of the output.  Handles are not kept apart: the Handle
    of a record is computed from that record alone, so in flexible tabular
    mode two records with distinct business keys whose computed handles
    are the same non-empty text are both expanded, each primary row with
    its own key and both with that Handle, and in any run a record that is
    the first usable one of its key is expanded under its computed handle
    whatever handles the output already holds; in structured-array mode the
    primary rows carry, in input order, the handles computed from the
    records, so two records whose computed handles coincide share the
    Handle. *)
Theorem business_keys_unique :
  (forall inputRows : list InputRow,
      NoDup (variantSkus (rowsOf (processCsv inputRows).1)))
  /\ (forall r1 r2 k1 k2,
        getCol r1 Field.product_id = Some k1 ->
        getCol r2 Field.product_id = Some k2 ->
        k1 <> k2 ->
        csvHandle r1 k1 <> [] ->
        csvHandle r2 k2 = csvHandle r1 k1 ->
        variantSkus (rowsOf (processCsv [r1; r2]).1) = [Str k1; Str k2]
        /\ primaryHandles (rowsOf (processCsv [r1; r2]).1)
           = [Str (csvHandle r1 k1); Str (csvHandle r1 k1)])
  /\ (forall pre r k,
        getCol r Field.product_id = Some k ->
        csvHandle r k <> [] ->
        (forall r', r' ∈ pre -> getCol r' Field.product_id = Some k ->
                    csvHandle r' k = []) ->
        variantSkus (outputRows (csvLoop (pre ++ [r])))
        = variantSkus (outputRows (csvLoop pre)) ++ [Str k]
        /\ primaryHandles (outputRows (csvLoop (pre ++ [r])))
           = primaryHandles (outputRows (csvLoop pre)) ++ [Str (csvHandle r k)])
  /\ (forall data,
        primaryHandles (rowsOf (processJson (DataArray data)))
        = (fun p => Str (jsonHandle p)) <$> data)
  /\ (forall p1 p2,
        jsonHandle p2 = jsonHandle p1 ->
        primaryHandles (rowsOf (processJson (DataArray [p1; p2])))
        = [Str (jsonHandle p1); Str (jsonHandle p1)]).
Proof.
  split_and!.
  - intros inputRows. unfold processCsv. destruct inputRows as [|r0 rest]; [constructor|].
    pose proof (proj1 (csvLoop_skus (r0 :: rest))) as Hn.
    by destruct (outputRows (csvLoop (r0 :: rest))).
  - intros r1 r2 k1 k2 H1 H2 Hk Hh1 Hh2.
    rewrite rowsOf_processCsv, (csvLoop_two_accepted r1 r2 k1 k2) by congruence.
    rewrite variantSkus_app, primaryHandles_app, !variantSkus_expandCsv,
      !primaryHandles_expandCsv, Hh2. done.
  - intros pre r k Hk Hh Hfirst.
    assert (Hfresh : k ∉ seenSkus (csvLoop pre)).
    { intros (r' & Hr' & Hk' & Hh')%csvLoop_seen. by apply Hh', Hfirst. }
    rewrite csvLoop_snoc, (csvStep_accept _ _ k) by done. cbn [outputRows].
    by rewrite variantSkus_app, primaryHandles_app, variantSkus_expandCsv,
      primaryHandles_expandCsv.
  - intros data. by rewrite rowsOf_processJson, jsonLoop_primaryHandles.
  - intros p1 p2 Hh. rewrite rowsOf_processJson, jsonLoop_primaryHandles.
    cbn [fmap list_fmap]. by rewrite Hh.
Qed.

(** ** Every mode: what one record appends *)

Lemma imageRows_handle handle first urls :
  Forall (fun row : MatrixifyRow => row !! "Handle" = Some (Str handle))
         (imageRows handle first urls).
Proof.
  apply Forall_forall. intros row (i & u & -> & _)%elem_of_lookup_imap.
  apply imageRow_handle.
Qed.

Lemma rowsWithImages_handle p :
  rowsWithImages p <> []
  /\ Forall (fun row : MatrixifyRow => row !! "Handle" = Some (Str (jsonHandle p)))
            (rowsWithImages p).
Proof.
  unfold rowsWithImages. destruct (collectImages p); (split; [done|]).
  - by repeat constructor.
  - constructor; [reflexivity|apply imageRows_handle].
Qed.

Lemma jsonStep_appends st p :
  exists rows, (jsonStep st p).1 = st.1 ++ rows /\ rows <> []
    /\ Forall (fun row : MatrixifyRow => row !! "Handle" = Some (Str (jsonHandle p))) rows.
Proof.
  unfold jsonStep. destruct (_ && _); cbn [fst].
  - exists (rowsWithImages p). split; [done|]. apply rowsWithImages_handle.
  - exists [productRow p]. split; [done|]. split; [done|]. by repeat constructor.
Qed.

Lemma expandCsv_handle r k :
  Forall (fun row : MatrixifyRow => row !! "Handle" = Some (Str (csvHandle r k)))
         (expandCsv r k).
Proof.
  unfold expandCsv. constructor; [reflexivity|apply imageRows_handle].
Qed.

Lemma createHandle_named now now' name color :
  name <> [] -> createHandle now name color = createHandle now' name color.
Proof. intros H. unfold createHandle. by destruct name. Qed.

(** C9: handle generation is deterministic.  In extracted single record
    mode the Handle does not depend on the clock [createHandle] may read;
    in the other modes every row a record appends carries the Handle
    computed from that record alone, whatever the state of the run. *)
Theorem handle_deterministic :
  (forall now now' e, extractedHandle now e = extractedHandle now' e)
  /\ (forall st p, exists rows,
        (jsonStep st p).1 = st.1 ++ rows /\ rows <> []
        /\ Forall (fun row : MatrixifyRow =>
                     row !! "Handle" = Some (Str (jsonHandle p))) rows)
  /\ (forall r k,
        Forall (fun row : MatrixifyRow =>
                  row !! "Handle" = Some (Str (csvHandle r k))) (expandCsv r k))
  /\ (forall d,
        Forall (fun row : MatrixifyRow =>
                  row !! "Handle" = Some (Str (scrapedHandle d))) (scrapedRows d)).
Proof.
  split_and!.
  - intros now now' e. unfold extractedHandle. apply createHandle_named.
    unfold orElse. by destruct (Raw.productName e) as [[|c n]|].
  - apply jsonStep_appends.
  - apply expandCsv_handle.
  - intros d. unfold scrapedRows. constructor; [reflexivity|apply imageRows_handle].
Qed.





(** C8 (amended): a product whose collected image list is empty yields
    exactly one row, the primary row.  In structured-array mode that row
    has neither Image Src nor Image Position.  In flexible tabular mode
    and in scraping mode it has an empty Image Src and Image Position 1. *)
Theorem no_image_single_row :
  (forall st p,
      collectImages p = [] ->
      (jsonStep st p).1 = st.1 ++ [productRow p]
      /\ blank (productRow p) "Image Src"
      /\ blank (productRow p) "Image Position")
  /\ (forall r k,
        getCol r Field.main_image = None -> csvThumbs r = [] ->
        expandCsv r k = [mainVariantRow r k]
        /\ mainVariantRow r k !! "Image Src" = Some (Str [])
        /\ mainVariantRow r k !! "Image Position" = Some (Num 1))
  /\ (forall d,
        scrapedImages d = [] ->
        scrapedRows d = [scrapedMainRow d]
        /\ scrapedMainRow d !! "Image Src" = Some (Str [])
        /\ scrapedMainRow d !! "Image Position" = Some (Num 1)).
Proof.
  split_and!.
  - intros st p H. split; [by apply jsonStep_no_images|]. split; reflexivity.
  - intros r k Hm Ht. unfold expandCsv. rewrite Ht. split; [done|].
    destruct (mainVariantRow_fields r k) as (-> & -> & _). by rewrite Hm.
  - intros d H. unfold scrapedRows. rewrite H. split; [done|].
    unfold scrapedImages in H. cbn [List.filter] in H.
    destruct (Scraped.mainImage d) as [|c m] eqn:Hd; [|done].
    unfold scrapedMainRow. rewrite Hd. split; reflexivity.
Qed.

(** ** Re-projection mode: forward fill *)

Lemma fillColumn_spec k last (r : InputRow) :
  (Shopify.fillColumn k last r).2 !! k = Some (Shopify.fillColumn k last r).1
  /\ (Shopify.fillColumn k last r).1 = (if Shopify.filled r k then default [] (r !! k) else last)
  /\ forall k', k' <> k -> (Shopify.fillColumn k last r).2 !! k' = r !! k'.
Proof.
  unfold Shopify.fillColumn. destruct (Shopify.filled r k) eqn:Hf; cbn [fst snd].
  - split; [|done]. unfold Shopify.filled, truthy in Hf.
    by destruct (r !! k) as [[|c v]|].
  - split; [by rewrite lookup_insert_eq|]. split; [done|].
    intros k' Hk. by rewrite lookup_insert_ne.
Qed.

(** C5: the forward fill carries the last non-blank Title and Vendor
    downward: each filled row holds, in both columns, its own value when
    that is not blank and the value remembered from the rows above
    otherwise; on the rows [{Title:"A",Vendor:"V"}], [{Title:"",Vendor:""}],
    [{Title:"B",Vendor:""}] the result is ["A","V"], ["A","V"], ["B","V"]. *)
Theorem forwardFill_title_vendor :
  (forall st (row : InputRow),
      let r := (Shopify.forwardFillRow st row).2 in
      r !! "Title" = Some (if Shopify.filled row "Title" then default [] (row !! "Title")
                           else Shopify.lastTitle st)
      /\ r !! "Vendor" = Some (if Shopify.filled row "Vendor" then default [] (row !! "Vendor")
                              else Shopify.lastVendor st)
      /\ Shopify.lastTitle (Shopify.forwardFillRow st row).1 = default [] (r !! "Title")
      /\ Shopify.lastVendor (Shopify.forwardFillRow st row).1 = default [] (r !! "Vendor"))
  /\ map (fun r : InputRow => (r !! "Title", r !! "Vendor"))
         (Shopify.forwardFill [titleVendor "A" "V"; titleVendor "" ""; titleVendor "B" ""])
     = [ (Some (js "A"), Some (js "V"));
         (Some (js "A"), Some (js "V"));
         (Some (js "B"), Some (js "V")) ].
Proof.
  split; [|by vm_compute].
  intros st row. unfold Shopify.forwardFillRow.
  destruct (Shopify.fillColumn "Title" (Shopify.lastTitle st) row) as [t r1] eqn:H1.
  destruct (Shopify.fillColumn "Vendor" (Shopify.lastVendor st) r1) as [v r2] eqn:H2.
  destruct (Shopify.fillColumn "Option1 Name" (Shopify.lastOption1Name st) r2) as [o r3] eqn:H3.
  cbn [fst snd Shopify.lastTitle Shopify.lastVendor].
  pose proof (fillColumn_spec "Title" (Shopify.lastTitle st) row) as (T1 & T2 & T3).
  pose proof (fillColumn_spec "Vendor" (Shopify.lastVendor st) r1) as (V1 & V2 & V3).
  pose proof (fillColumn_spec "Option1 Name" (Shopify.lastOption1Name st) r2) as (O1 & O2 & O3).
  rewrite H1 in T1, T2, T3. rewrite H2 in V1, V2, V3. rewrite H3 in O1, O2, O3.
  cbn [fst snd] in *.
  assert (r3 !! "Title" = Some t) as Ht.
  { rewrite O3, V3 by done. done. }
  assert (r3 !! "Vendor" = Some v) as Hv.
  { rewrite O3 by done. done. }
  assert (Shopify.filled r1 "Vendor" = Shopify.filled row "Vendor" /\ r1 !! "Vendor" = row !! "Vendor")
    as [Hf Hl].
  { unfold Shopify.filled. rewrite T3 by done. done. }
  rewrite Ht, Hv. cbn [default]. rewrite T2, V2, Hf, Hl. done.
Qed.

Lemma forwardFillRow_other st (row : InputRow) k :
  k <> "Title" -> k <> "Vendor" -> k <> "Option1 Name" ->
  (Shopify.forwardFillRow st row).2 !! k = row !! k.
Proof.
  intros Ht Hv Ho. unfold Shopify.forwardFillRow.
  destruct (Shopify.fillColumn "Title" (Shopify.lastTitle st) row) as [t r1] eqn:H1.
  destruct (Shopify.fillColumn "Vendor" (Shopify.lastVendor st) r1) as [v r2] eqn:H2.
  destruct (Shopify.fillColumn "Option1 Name" (Shopify.lastOption1Name st) r2)
    as [o r3] eqn:H3.
  pose proof (fillColumn_spec "Title" (Shopify.lastTitle st) row) as (_ & _ & T).
  pose proof (fillColumn_spec "Vendor" (Shopify.lastVendor st) r1) as (_ & _ & V).
  pose proof (fillColumn_spec "Option1 Name" (Shopify.lastOption1Name st) r2) as (_ & _ & O).
  rewrite H1 in T. rewrite H2 in V. rewrite H3 in O. cbn [snd] in *.
  by rewrite O, V, T.
Qed.

(** Rows with a blank Handle stay so through the forward fill, and each
    is dropped with one warning. *)
Lemma forwardFill_blank_handles rows : forall st,
  Forall (fun r => Shopify.filled r "Handle" = false) rows ->
  omap Shopify.processRow (Shopify.forwardFillFrom st rows) = []
  /\ length (flat_map Shopify.rowDiagnostics (Shopify.forwardFillFrom st rows))
     = length rows.
Proof.
  induction rows as [|row rows IH]; intros st Hall; [done|].
  apply Forall_cons in Hall as [Hrow Hrows].
  cbn [Shopify.forwardFillFrom].
  pose proof (forwardFillRow_other st row "Handle") as Hh.
  destruct (Shopify.forwardFillRow st row) as [st' r]. cbn [snd] in Hh.
  assert (Shopify.filled r "Handle" = false) as Hr.
  { unfold Shopify.filled in *. by rewrite Hh. }
  destruct (IH st' Hrows) as [IH1 IH2].
  cbn [omap list_omap flat_map].
  unfold Shopify.processRow at 1, Shopify.rowDiagnostics at 1. rewrite Hr. cbn [negb].
  split; [done|]. cbn [app length]. by rewrite IH2.
Qed.

Lemma csvLoop_all_rejected inputRows :
  Forall (fun r => forall k, getCol r Field.product_id = Some k -> csvHandle r k = [])
         inputRows ->
  outputRows (csvLoop inputRows) = []
  /\ seenSkus (csvLoop inputRows) = ∅
  /\ length (warnings (csvLoop inputRows)) = length inputRows
  /\ Forall (fun d => logType d = WARNING) (warnings (csvLoop inputRows)).
Proof.
  induction inputRows as [|r pre IH] using rev_ind; intros Hall.
  - unfold csvLoop. cbn. by repeat split.
  - apply Forall_app in Hall as [Hpre Hr]. apply Forall_cons in Hr as [Hr _].
    destruct (IH Hpre) as (Ho & Hs & Hl & Hw). rewrite csvLoop_snoc.
    assert (exists d, csvStep (csvLoop pre) r = skip (csvLoop pre) d
                      /\ logType d = WARNING) as (d & -> & Hd).
    { destruct (getCol r Field.product_id) as [k|] eqn:Hk.
      - exists (NoHandle r). split; [|done].
        apply (csvStep_no_handle _ _ k); [done| |by apply Hr].
        rewrite Hs. set_solver.
      - exists (MissingProductId r). split; [|done]. by apply csvStep_missing. }
    cbn. rewrite !length_app, Hl. cbn. split_and!; [done..|].
    apply Forall_app. split; [done|]. by repeat constructor.
Qed.


(** C3 (amended): when flexible tabular mode decodes a non-empty input and
    every record is rejected, for a missing business key or for want of
    a handle, the run fails with the error whose message says that no
    processable product data was found, a message other than that of the
    empty-input error, after one warning per record.  In re-projection
    mode a non-empty input whose rows are all dropped does not fail: an
    error is logged and the result is null. *)
Theorem no_survivors_outcome :
  (forall inputRows,
      inputRows <> [] ->
      Forall (fun r => forall k, getCol r Field.product_id = Some k -> csvHandle r k = [])
             inputRows ->
      exists log,
        processCsv inputRows = (Thrown NoProductsInCsv, log)
        /\ length log = length inputRows
        /\ Forall (fun d => logType d = WARNING) log)
  /\ message NoProductsInCsv <> ""
  /\ message NoProductsInCsv <> message EmptyCsv
  /\ (forall data,
        data <> [] ->
        Forall (fun r => Shopify.filled r "Handle" = false) data ->
        exists log,
          Shopify.processCsv data = (Returned None, log ++ [NoRowsProcessed])
          /\ length log = length data
          /\ logType NoRowsProcessed = ERROR).
Proof.
  split_and!.
  - intros inputRows Hne Hall.
    destruct (csvLoop_all_rejected inputRows Hall) as (Ho & _ & Hl & Hw).
    exists (warnings (csvLoop inputRows)). split; [|done].
    unfold processCsv. destruct inputRows; [done|]. by rewrite Ho.
  - done.
  - apply String.eqb_neq. vm_compute. reflexivity.
  - intros data Hne Hall.
    destruct (forwardFill_blank_handles data Shopify.initialFill Hall) as [Ho Hl].
    exists (flat_map Shopify.rowDiagnostics (Shopify.forwardFill data)).
    split; [|done]. unfold Shopify.processCsv, Shopify.parseCsv.
    destruct data; [done|]. unfold Shopify.forwardFill. by rewrite Ho.
Qed.

(** ** Further properties of the record loops *)

Lemma imagePositions_imageRows handle first urls :
  imagePositions (imageRows handle first urls)
  = (fun i => Num (Z.of_nat i + first)%Z) <$> seq 0 (length urls).
Proof.
  unfold imagePositions, imageRows. revert first.
  induction urls as [|u urls IH]; intros first; [done|].
  cbn [imap omap list_omap length seq fmap list_fmap].
  change (imageRow handle first 0 u !! "Image Position")
    with (Some (Num (Z.of_nat 0 + first)%Z)).
  f_equal. rewrite <- fmap_S_seq, <- list_fmap_compose.
  rewrite <- (list_fmap_ext (fun i => Num (Z.of_nat i + (1 + first))%Z)
                            _ (seq 0 (length urls)))
    by (intros; cbn; f_equal; lia).
  fold (@fmap list _ nat cell).
  rewrite <- (IH (1 + first)%Z). f_equal. apply imap_ext.
  intros i x _. unfold imageRow, compose. do 4 f_equal. lia.
Qed.

Lemma positionsUpTo_S n :
  positionsUpTo (S n) = Num 1 :: ((fun i => Num (Z.of_nat i + 2)%Z) <$> seq 0 n).
Proof.
  unfold positionsUpTo. cbn [seq fmap list_fmap]. f_equal.
  rewrite <- fmap_S_seq, <- fmap_S_seq, <- !list_fmap_compose.
  apply list_fmap_ext. intros i x _. cbn. f_equal. lia.
Qed.

Lemma imagePositions_cons (r : MatrixifyRow) rows :
  imagePositions (r :: rows)
  = match r !! "Image Position" with
    | Some c => c :: imagePositions rows
    | None => imagePositions rows
    end.
Proof. reflexivity. Qed.

Lemma variantSkus_cons (r : MatrixifyRow) rows :
  variantSkus (r :: rows)
  = match r !! "Variant SKU" with
    | Some c => c :: variantSkus rows
    | None => variantSkus rows
    end.
Proof. reflexivity. Qed.

(** X1: in structured-array mode a record whose images are processed yields
    one row per collected image, and exactly one row when there is none;
    the Image Position cells of the group are 1, 2, ..., k in row order. *)
Theorem json_row_group_positions (p : Kadoa.Product) :
  length (rowsWithImages p) = Nat.max 1 (length (collectImages p))
  /\ imagePositions (rowsWithImages p) = positionsUpTo (length (collectImages p)).
Proof.
  unfold rowsWithImages. destruct (collectImages p) as [|first others].
  - split; [done|]. rewrite imagePositions_cons.
    by rewrite (proj2 (productRow_no_image p)).
  - split.
    + cbn [length]. unfold imageRows. rewrite length_imap. lia.
    + rewrite imagePositions_cons, lookup_insert_eq.
      cbn [length]. by rewrite positionsUpTo_S, imagePositions_imageRows.
Qed.

(** X2: in flexible tabular mode an accepted record yields one row more
    than it has thumbnails, and the Image Position cells of the group are
    1, 2, ..., 1 + the number of thumbnails in row order. *)
Theorem csv_row_group_positions (r : InputRow) (styleNo : jsstring) :
  length (expandCsv r styleNo) = S (length (csvThumbs r))
  /\ imagePositions (expandCsv r styleNo) = positionsUpTo (S (length (csvThumbs r))).
Proof.
  unfold expandCsv. split.
  - cbn [length]. unfold imageRows. by rewrite length_imap.
  - rewrite imagePositions_cons.
    destruct (mainVariantRow_fields r styleNo) as (_ & -> & _).
    by rewrite positionsUpTo_S, imagePositions_imageRows.
Qed.

(** X3: structured-array mode never drops or merges a record: the Variant
    SKU cells of the output, in row order, are the product ids of the
    input records, in input order (an absent id gives the empty cell). *)
Theorem json_one_primary_row_per_record (data : list Kadoa.Product) :
  variantSkus (jsonLoop data).1
  = (fun p => Str (orElse (Kadoa.productId p) [])) <$> data.
Proof.
  induction data as [|p pre IH] using rev_ind; [done|].
  rewrite jsonLoop_snoc, fmap_app. cbn [fmap list_fmap]. rewrite <- IH.
  assert (Hrow : variantSkus [productRow p] = [Str (orElse (Kadoa.productId p) [])])
    by reflexivity.
  assert (Himg : variantSkus (rowsWithImages p)
                 = [Str (orElse (Kadoa.productId p) [])]).
  { unfold rowsWithImages. destruct (collectImages p) as [|first others]; [done|].
    rewrite variantSkus_cons, lookup_insert_ne, lookup_insert_ne by done.
    change (productRow p !! "Variant SKU")
      with (Some (Str (orElse (Kadoa.productId p) []))).
    by rewrite variantSkus_imageRows. }
  unfold jsonStep. destruct (_ && _); cbn [fst]; rewrite variantSkus_app; congruence.
Qed.

(** X4: the count of unique products [processCsv] logs, [seenSkus.size],
    is the number of primary rows of the output, and [seenSkus] holds
    exactly the business keys on those rows. *)
Theorem csv_unique_product_count (inputRows : list InputRow) :
  size (seenSkus (csvLoop inputRows))
  = length (variantSkus (outputRows (csvLoop inputRows)))
  /\ forall k, k ∈ seenSkus (csvLoop inputRows)
               <-> Str k ∈ variantSkus (outputRows (csvLoop inputRows)).
Proof.
  induction inputRows as [|r pre [IHn IHs]] using rev_ind.
  - unfold csvLoop. cbn. split; [apply size_empty|].
    intros k. rewrite elem_of_empty, elem_of_nil. tauto.
  - rewrite csvLoop_snoc.
    destruct (csvStep_cases (csvLoop pre) r)
      as [(-> & -> & _)|(k' & Hk' & Hfresh & Hh & -> & -> & _)]; [done|].
    rewrite variantSkus_app, variantSkus_expandCsv. split.
    + rewrite length_app, size_union, size_singleton by set_solver.
      cbn [length]. lia.
    + intros k. rewrite elem_of_union, elem_of_singleton, elem_of_app,
        list_elem_of_singleton, IHs.
      split; (intros [H|H]; [|]); try tauto; [right|left]; congruence.
Qed.

(** X5: every input record of flexible tabular mode is accounted for once:
    it is either expanded, and then counted as a unique product, or
    skipped with exactly one warning. *)
Theorem csv_records_accounted (inputRows : list InputRow) :
  (length (warnings (csvLoop inputRows)) + size (seenSkus (csvLoop inputRows)))%nat
  = length inputRows.
Proof.
  induction inputRows as [|r pre IH] using rev_ind.
  - unfold csvLoop. cbn. by rewrite size_empty.
  - rewrite csvLoop_snoc, length_app. cbn [length].
    destruct (csvStep_cases (csvLoop pre) r)
      as [(_ & -> & (d & ->) & _)|(k' & _ & Hfresh & _ & _ & -> & ->)].
    + rewrite length_app. cbn [length]. lia.
    + rewrite size_union, size_singleton by set_solver. lia.
Qed.

(** X6: the loops only append: processing further records leaves the rows
    produced so far in place at the front of the output, and forgets no
    key, handle or warning. *)
Theorem loops_append_only :
  (forall pre post : list InputRow,
      outputRows (csvLoop pre) `prefix_of` outputRows (csvLoop (pre ++ post))
      /\ warnings (csvLoop pre) `prefix_of` warnings (csvLoop (pre ++ post))
      /\ seenSkus (csvLoop pre) ⊆ seenSkus (csvLoop (pre ++ post)))
  /\ (forall pre post : list Kadoa.Product,
        (jsonLoop pre).1 `prefix_of` (jsonLoop (pre ++ post)).1
        /\ (jsonLoop pre).2 ⊆ (jsonLoop (pre ++ post)).2).
Proof.
  split; intros pre post.
  - induction post as [|r post (IHo & IHw & IHs)] using rev_ind.
    + by rewrite app_nil_r.
    + rewrite app_assoc, csvLoop_snoc.
      destruct (csvStep_cases (csvLoop (pre ++ post)) r)
        as [(-> & -> & (d & ->) & _)|(k' & _ & _ & _ & -> & -> & ->)].
      * split_and!; [done| |done]. by apply prefix_app_r.
      * split_and!; [by apply prefix_app_r|done|set_solver].
  - induction post as [|p post (IHo & IHs)] using rev_ind.
    + by rewrite app_nil_r.
    + rewrite app_assoc, jsonLoop_snoc. unfold jsonStep.
      destruct (_ && _); cbn [fst snd].
      * split; [by apply prefix_app_r|set_solver].
      * split; [by apply prefix_app_r|done].
Qed.

Lemma csvLoop_rows_usable inputRows :
  outputRows (csvLoop inputRows) <> [] ->
  exists r k, r ∈ inputRows /\ getCol r Field.product_id = Some k /\ csvHandle r k <> [].
Proof.
  induction inputRows as [|r pre IH] using rev_ind; [done|].
  rewrite csvLoop_snoc.
  destruct (csvStep_cases (csvLoop pre) r)
    as [(-> & _)|(k' & Hk' & _ & Hh & _)].
  - intros (r' & k & Hr' & H)%IH. exists r', k. rewrite elem_of_app. tauto.
  - intros _. exists r, k'. rewrite elem_of_app, list_elem_of_singleton. tauto.
Qed.

Lemma csvLoop_usable_rows inputRows r k :
  r ∈ inputRows -> getCol r Field.product_id = Some k -> csvHandle r k <> [] ->
  outputRows (csvLoop inputRows) <> [].
Proof.
  intros Hr Hk Hh Hnil.
  assert (Hseen : k ∈ seenSkus (csvLoop inputRows)) by (apply csvLoop_seen; eauto).
  clear Hr Hk Hh. revert Hnil Hseen.
  induction inputRows as [|r' pre IH] using rev_ind.
  - unfold csvLoop. cbn. set_solver.
  - rewrite csvLoop_snoc.
    destruct (csvStep_cases (csvLoop pre) r')
      as [(-> & -> & _)|(k' & _ & _ & _ & -> & _)]; [done|].
    intros Hnil _. apply app_eq_nil in Hnil as [_ Hnil]. by unfold expandCsv in Hnil.
Qed.

(** X7: flexible tabular mode succeeds exactly when some record has both a
    business key and a handle, and then returns the rows of the loop;
    otherwise it throws: the empty-file error for an input without rows,
    the no-product error for an input whose records are all rejected. *)
Theorem csv_outcome (inputRows : list InputRow) :
  ((exists r k, r ∈ inputRows /\ getCol r Field.product_id = Some k
                /\ csvHandle r k <> []) ->
   (processCsv inputRows).1 = Returned (outputRows (csvLoop inputRows))
   /\ outputRows (csvLoop inputRows) <> [])
  /\ (forall rows, (processCsv inputRows).1 = Returned rows ->
        exists r k, r ∈ inputRows /\ getCol r Field.product_id = Some k
                    /\ csvHandle r k <> [])
  /\ (forall e, (processCsv inputRows).1 = Thrown e ->
        (inputRows = [] /\ e = EmptyCsv)
        \/ (inputRows <> [] /\ e = NoProductsInCsv)).
Proof.
  split_and!.
  - intros (r & k & Hr & Hk & Hh).
    pose proof (csvLoop_usable_rows inputRows r k Hr Hk Hh) as Hne.
    split; [|done]. unfold processCsv.
    destruct inputRows as [|r0 rest]; [by apply elem_of_nil in Hr|].
    by destruct (outputRows (csvLoop (r0 :: rest))).
  - intros rows H. apply csvLoop_rows_usable. unfold processCsv in H.
    destruct inputRows as [|r0 rest]; [done|].
    by destruct (outputRows (csvLoop (r0 :: rest))).
  - intros e H. unfold processCsv in H. destruct inputRows as [|r0 rest].
    + left. by injection H as <-.
    + right. split; [done|].
      destruct (outputRows (csvLoop (r0 :: rest))); [|done]. by injection H as <-.
Qed.


(** ** Further properties of re-projection mode *)

Lemma foldDefaults_lookup (ds : list (string * jsstring)) : forall (r : InputRow) k,
  NoDup ds.*1 ->
  foldl (fun acc kd => if Shopify.missing acc kd.1 then <[kd.1 := kd.2]> acc else acc)
        r ds !! k
  = match (list_to_map ds : gmap string jsstring) !! k with
    | Some d => if Shopify.missing r k then Some d else r !! k
    | None => r !! k
    end.
Proof.
  induction ds as [|[k0 d0] ds IH]; intros r k Hnd; [done|].
  apply NoDup_cons in Hnd as [Hk0 Hnd]. cbn [foldl fst snd fmap list_fmap] in *.
  rewrite IH by done. cbn [list_to_map foldr fst snd uncurry].
  destruct (decide (k = k0)) as [->|Hne].
  - rewrite lookup_insert_eq, (not_elem_of_list_to_map_1 _ _ Hk0).
    destruct (Shopify.missing r k0); [by rewrite lookup_insert_eq|done].
  - rewrite lookup_insert_ne by done.
    assert (Hsame : forall r' : InputRow, r' !! k = r !! k ->
              Shopify.missing r' k = Shopify.missing r k).
    { intros r' Hr'. unfold Shopify.missing. by rewrite Hr'. }
    destruct (Shopify.missing r k0).
    + rewrite (Hsame (<[k0:=d0]> r)), lookup_insert_ne by (by rewrite ?lookup_insert_ne).
      done.
    + done.
Qed.

Lemma applyDefaults_cell (r : InputRow) (k : string) :
  Shopify.applyDefaults r !! k
  = match (list_to_map Shopify.defaults : gmap string jsstring) !! k with
    | Some d => if Shopify.missing r k then Some d else r !! k
    | None => r !! k
    end.
Proof.
  unfold Shopify.applyDefaults. apply foldDefaults_lookup.
  unfold Shopify.defaults. cbn [fmap list_fmap fst].
  apply (bool_decide_unpack _). vm_compute. exact I.
Qed.

(** X9: the default fill of re-projection mode writes a cell only where the
    row has no value or a blank one and the column has a default; then the
    cell becomes that default.  Every other cell is left as it is: a
    non-blank value is never overwritten, and a column without default is
    never touched. *)
Theorem applyDefaults_lookup (r : InputRow) (k : string) :
  Shopify.applyDefaults r !! k
  = match defaultOf k with
    | Some d => if Shopify.missing r k then Some d else r !! k
    | None => r !! k
    end.
Proof. apply applyDefaults_cell. Qed.

Lemma fillColumn_settled k last (r : InputRow) t :
  r !! k = Some t -> (trim t <> [] \/ t = last) ->
  Shopify.fillColumn k last r = (t, r).
Proof.
  intros Hk Ht. unfold Shopify.fillColumn, Shopify.filled. rewrite Hk.
  change (default [] (Some t)) with t.
  destruct (trim t) as [|c u] eqn:Htrim.
  - destruct Ht as [Ht| ->]; [done|].
    destruct (truthy (Some last)); cbn [andb negb]; by rewrite insert_id.
  - destruct t as [|c' t']; [done|]. done.
Qed.

Lemma fillColumn_result k last (r : InputRow) :
  let t := (Shopify.fillColumn k last r).1 in trim t <> [] \/ t = last.
Proof.
  cbn zeta. unfold Shopify.fillColumn, Shopify.filled.
  destruct (r !! k) as [v|]; [|by right].
  change (default [] (Some v)) with v.
  destruct v as [|c v]; [by right|]. destruct (trim (c :: v)) eqn:Ht; [by right|].
  left. cbn [truthy andb negb fst]. by rewrite Ht.
Qed.

Lemma forwardFillRow_again st (row : InputRow) :
  Shopify.forwardFillRow st (Shopify.forwardFillRow st row).2
  = Shopify.forwardFillRow st row.
Proof.
  unfold Shopify.forwardFillRow at 2 3.
  pose proof (fillColumn_spec "Title" (Shopify.lastTitle st) row) as (T1 & _ & T3).
  pose proof (fillColumn_result "Title" (Shopify.lastTitle st) row) as T2.
  destruct (Shopify.fillColumn "Title" (Shopify.lastTitle st) row) as [t r1].
  pose proof (fillColumn_spec "Vendor" (Shopify.lastVendor st) r1) as (V1 & _ & V3).
  pose proof (fillColumn_result "Vendor" (Shopify.lastVendor st) r1) as V2.
  destruct (Shopify.fillColumn "Vendor" (Shopify.lastVendor st) r1) as [v r2].
  pose proof (fillColumn_spec "Option1 Name" (Shopify.lastOption1Name st) r2)
    as (O1 & _ & O3).
  pose proof (fillColumn_result "Option1 Name" (Shopify.lastOption1Name st) r2) as O2.
  destruct (Shopify.fillColumn "Option1 Name" (Shopify.lastOption1Name st) r2) as [o r3].
  cbn [fst snd] in *. unfold Shopify.forwardFillRow.
  rewrite (fillColumn_settled "Title" _ r3 t); [|by rewrite O3, V3|done].
  rewrite (fillColumn_settled "Vendor" _ r3 v); [|by rewrite O3|done].
  by rewrite (fillColumn_settled "Option1 Name" _ r3 o).
Qed.

Lemma forwardFillRow_cells st (row : InputRow) :
  is_Some ((Shopify.forwardFillRow st row).2 !! "Title")
  /\ is_Some ((Shopify.forwardFillRow st row).2 !! "Vendor")
  /\ is_Some ((Shopify.forwardFillRow st row).2 !! "Option1 Name").
Proof.
  unfold Shopify.forwardFillRow.
  pose proof (fillColumn_spec "Title" (Shopify.lastTitle st) row) as (T1 & _ & T3).
  destruct (Shopify.fillColumn "Title" (Shopify.lastTitle st) row) as [t r1].
  pose proof (fillColumn_spec "Vendor" (Shopify.lastVendor st) r1) as (V1 & _ & V3).
  destruct (Shopify.fillColumn "Vendor" (Shopify.lastVendor st) r1) as [v r2].
  pose proof (fillColumn_spec "Option1 Name" (Shopify.lastOption1Name st) r2)
    as (O1 & _ & O3).
  destruct (Shopify.fillColumn "Option1 Name" (Shopify.lastOption1Name st) r2) as [o r3].
  cbn [fst snd] in *. rewrite O1, !O3, V1, V3, T1 by done. by repeat split.
Qed.

(** X10: the forward fill is idempotent: filling an already filled table
    changes nothing. *)
Theorem forwardFill_idempotent (rows : list InputRow) :
  Shopify.forwardFill (Shopify.forwardFill rows) = Shopify.forwardFill rows.
Proof.
  unfold Shopify.forwardFill. generalize Shopify.initialFill.
  induction rows as [|row rows IH]; intros st; [done|].
  cbn [Shopify.forwardFillFrom].
  pose proof (forwardFillRow_again st row) as Hagain.
  destruct (Shopify.forwardFillRow st row) as [st' r] eqn:Hrow.
  cbn [Shopify.forwardFillFrom snd] in *. rewrite Hagain. by rewrite IH.
Qed.

(** X11: the forward fill keeps the number and the order of the rows and
    writes the Title, Vendor and Option1 Name cells only; after it each row
    has a value in these three columns. *)
Theorem forwardFill_three_columns (rows : list InputRow) :
  Forall2 (fun row r : InputRow =>
             (forall k, ~ forwardFilled k -> r !! k = row !! k)
             /\ forall k, forwardFilled k -> is_Some (r !! k))
          rows (Shopify.forwardFill rows).
Proof.
  unfold Shopify.forwardFill. generalize Shopify.initialFill.
  induction rows as [|row rows IH]; intros st; [constructor|].
  cbn [Shopify.forwardFillFrom].
  pose proof (forwardFillRow_other st row) as Hother.
  pose proof (forwardFillRow_cells st row) as Hcells.
  destruct (Shopify.forwardFillRow st row) as [st' r]. cbn [snd] in *.
  constructor; [|apply IH]. split.
  - intros k Hk. apply Hother; intros ->; apply Hk; unfold forwardFilled; tauto.
  - intros k [-> | [-> | ->]]; apply Hcells.
Qed.

Lemma filled_same_cell (r r' : InputRow) k :
  r' !! k = r !! k -> Shopify.filled r' k = Shopify.filled r k.
Proof. intros H. unfold Shopify.filled. by rewrite H. Qed.

Lemma applyDefaults_handle (r : InputRow) :
  Shopify.applyDefaults r !! "Handle" = r !! "Handle".
Proof. by rewrite applyDefaults_cell. Qed.

(** What the two passes make of the rows, from any fill state. *)
Lemma shopify_passes rows : forall st,
  handleCells (omap Shopify.processRow (Shopify.forwardFillFrom st rows))
  = handleCells (List.filter (fun r => Shopify.filled r "Handle") rows)
  /\ (length (flat_map Shopify.rowDiagnostics (Shopify.forwardFillFrom st rows))
      + length (omap Shopify.processRow (Shopify.forwardFillFrom st rows)))%nat
     = length rows
  /\ Forall (fun row : InputRow =>
               Shopify.filled row "Handle" = true
               /\ forall k d, defaultOf k = Some d -> trim d <> [] ->
                              Shopify.missing row k = false)
            (omap Shopify.processRow (Shopify.forwardFillFrom st rows)).
Proof.
  induction rows as [|row rows IH]; intros st; [by repeat split|].
  cbn [Shopify.forwardFillFrom List.filter].
  pose proof (forwardFillRow_other st row "Handle") as Hh.
  destruct (Shopify.forwardFillRow st row) as [st' r]. cbn [snd] in Hh.
  specialize (Hh ltac:(done) ltac:(done) ltac:(done)).
  destruct (IH st') as (IH1 & IH2 & IH3).
  assert (Hf : Shopify.filled r "Handle" = Shopify.filled row "Handle")
    by (by apply filled_same_cell).
  assert (Hpr : Shopify.processRow r
                = if Shopify.filled row "Handle"
                  then Some (Shopify.applyDefaults r) else None).
  { unfold Shopify.processRow. rewrite Hf. by destruct (Shopify.filled row "Handle"). }
  assert (Hdg : Shopify.rowDiagnostics r
                = if Shopify.filled row "Handle"
                  then [] else [BlankHandleRow (r !! "Title")]).
  { unfold Shopify.rowDiagnostics. rewrite Hf.
    by destruct (Shopify.filled row "Handle"). }
  cbn [omap list_omap flat_map]. rewrite Hpr, Hdg.
  destruct (Shopify.filled row "Handle") eqn:Hrow; cbn [app length].
  - unfold handleCells in *. cbn [fmap list_fmap].
    rewrite applyDefaults_handle, Hh, IH1. split; [done|]. split; [lia|].
    constructor; [|done]. split.
    + rewrite (filled_same_cell r (Shopify.applyDefaults r) "Handle"); [done|].
      apply applyDefaults_handle.
    + intros k d Hd Hne. unfold Shopify.missing. rewrite applyDefaults_cell.
      unfold defaultOf in Hd. rewrite Hd.
      destruct (Shopify.missing r k) eqn:Hm.
      * by destruct (trim d).
      * unfold Shopify.missing in Hm. done.
  - split; [done|]. split; [lia|done].
Qed.

(** X12: re-projection mode throws for an input without rows only, and
    returns the null result exactly when the input has rows and each has a
    blank Handle.  Otherwise it keeps, in order, the rows whose Handle is
    not blank, with their Handle cells unchanged, and logs one warning per
    dropped row. *)
Theorem shopify_outcome (data : list InputRow) :
  (forall e, (Shopify.processCsv data).1 = Thrown e <->
             data = [] /\ e = EmptyShopifyCsv)
  /\ ((Shopify.processCsv data).1 = Returned None <->
      data <> [] /\ Forall (fun r => Shopify.filled r "Handle" = false) data)
  /\ (forall rows, (Shopify.processCsv data).1 = Returned (Some rows) ->
        handleCells rows
        = handleCells (List.filter (fun r => Shopify.filled r "Handle") data)
        /\ (length (Shopify.processCsv data).2 + length rows)%nat = length data).
Proof.
  destruct (shopify_passes data Shopify.initialFill) as (Hcells & Hlen & _).
  unfold Shopify.processCsv, Shopify.parseCsv, Shopify.forwardFill.
  destruct data as [|r0 rest].
  - cbn. split_and!; [|split; [done|by intros [? _]]|done].
    intros e. split; [by intros [= <-]|by intros [_ ->]].
  - set (data := r0 :: rest) in *.
    destruct (omap Shopify.processRow (Shopify.forwardFillFrom Shopify.initialFill data))
      as [|row rows'] eqn:Hrows; cbn [fst snd].
    + split_and!; [intros e; split; [done|by intros [? _]]| |done].
      split; [|done]. intros _. split; [done|].
      unfold handleCells in Hcells. cbn [fmap list_fmap] in Hcells.
      symmetry in Hcells. apply fmap_nil_inv in Hcells.
      apply Forall_forall. intros r Hr.
      destruct (Shopify.filled r "Handle") eqn:Hf; [|done].
      assert (r ∈ List.filter (fun r => Shopify.filled r "Handle") data) as Hin
        by (apply list_elem_of_In, filter_In; split; [by apply list_elem_of_In|done]).
      rewrite Hcells in Hin. by apply elem_of_nil in Hin.
    + split_and!; [intros e; split; [done|by intros [? _]]| |].
      * split; [done|]. intros [_ Hall]. exfalso.
        assert (List.filter (fun r => Shopify.filled r "Handle") data = []) as Hnil.
        { clear -Hall. induction Hall as [|r l Hr Hl IH]; [done|].
          cbn [List.filter]. by rewrite Hr. }
        rewrite Hnil in Hcells. done.
      * intros rows [= <-]. split; [done|]. cbn [length] in *. lia.
Qed.

(** X13: every row re-projection mode hands to the serialiser has a Handle
    that is not blank and a non-blank cell in each column whose default is
    not blank (Vendor, Published, Option1 Name, Option1 Value, and the
    Variant and Gift Card columns). *)
Theorem shopify_rows_filled (data : list InputRow) :
  Forall (fun row : InputRow =>
            Shopify.filled row "Handle" = true
            /\ forall k d, defaultOf k = Some d -> trim d <> [] ->
                           Shopify.missing row k = false)
         (keptRows (Shopify.processCsv data).1).
Proof.
  destruct (shopify_passes data Shopify.initialFill) as (_ & _ & Hall).
  unfold Shopify.processCsv, Shopify.parseCsv, Shopify.forwardFill.
  destruct data as [|r0 rest]; [constructor|].
  by destruct (omap Shopify.processRow
                 (Shopify.forwardFillFrom Shopify.initialFill (r0 :: rest))).
Qed.

(** ** Further properties of the column resolver and the row builders *)

Lemma firstNonBlank_Some (r : InputRow) cols v :
  firstNonBlank r cols = Some v <->
  exists before colName after,
    cols = before ++ colName :: after
    /\ r !! colName = Some v /\ trim v <> []
    /\ Forall (passedOver r) before.
Proof.
  induction cols as [|c cols IH]; cbn [firstNonBlank].
  - split; [done|]. intros (before & ? & ? & H & _). by destruct before.
  - destruct (r !! c) as [w|] eqn:Hc; [destruct (trim w) eqn:Hw|].
    + rewrite IH. split.
      * intros (before & colName & after & -> & H).
        exists (c :: before), colName, after. split; [done|].
        destruct H as (? & ? & ?). split_and!; [done..|].
        constructor; [|done]. intros w' Hw'. congruence.
      * intros (before & colName & after & Heq & Hv & Ht & Hb).
        destruct before as [|c' before]; cbn in Heq; simplify_eq.
        apply Forall_cons in Hb as [_ Hb]. eauto 10.
    + split.
      * intros [= <-]. exists [], c, cols. split_and!; [done|done|congruence|constructor].
      * intros (before & colName & after & Heq & Hv & Ht & Hb).
        destruct before as [|c' before]; cbn in Heq; simplify_eq; [done|].
        apply Forall_cons in Hb as [Hb _]. specialize (Hb w Hc). congruence.
    + rewrite IH. split.
      * intros (before & colName & after & -> & H).
        exists (c :: before), colName, after. split; [done|].
        destruct H as (? & ? & ?). split_and!; [done..|].
        constructor; [|done]. intros w' Hw'. congruence.
      * intros (before & colName & after & Heq & Hv & Ht & Hb).
        destruct before as [|c' before]; cbn in Heq; simplify_eq.
        apply Forall_cons in Hb as [_ Hb]. eauto 10.
Qed.

Lemma firstNonBlank_None (r : InputRow) cols :
  firstNonBlank r cols = None <-> Forall (passedOver r) cols.
Proof.
  induction cols as [|c cols IH]; cbn [firstNonBlank]; [by split|].
  rewrite Forall_cons. unfold passedOver at 1.
  destruct (r !! c) as [w|] eqn:Hc; [destruct (trim w) eqn:Hw|].
  - rewrite IH. split; [|tauto]. intros H. split; [|done]. by intros w' [= <-].
  - split; [done|]. intros [H _]. specialize (H w eq_refl). congruence.
  - rewrite IH. split; [|tauto]. intros H. by split.
Qed.

(** X14: [getCol] returns the value of the first alias of the canonical
    field, in the order of [COLUMN_MAP], whose cell is present and not
    blank once trimmed, as it stands in the row (not trimmed); it returns
    null exactly when every alias is absent or blank. *)
Theorem getCol_first_match (r : InputRow) (key : Field.canonical) :
  (forall v, getCol r key = Some v <->
             exists before colName after,
               COLUMN_MAP key = before ++ colName :: after
               /\ r !! colName = Some v /\ trim v <> []
               /\ Forall (passedOver r) before)
  /\ (getCol r key = None <-> Forall (passedOver r) (COLUMN_MAP key)).
Proof.
  split; [intros v; apply firstNonBlank_Some|apply firstNonBlank_None].
Qed.

Lemma replaceNewlines_none rep s :
  Forall (fun c => c <> 10) rep -> Forall (fun c => c <> 10) (replaceNewlines rep s).
Proof.
  intros Hrep. unfold replaceNewlines. apply Forall_flat_map, Forall_forall.
  intros c _. destruct (N.eqb_spec c 10); [done|by repeat constructor].
Qed.

Lemma replaceNewlines_app rep s t :
  replaceNewlines rep (s ++ t) = replaceNewlines rep s ++ replaceNewlines rep t.
Proof. unfold replaceNewlines. apply flat_map_app. Qed.

Lemma replaceNewlines_line rep s :
  Forall (fun c => c <> 10) s -> replaceNewlines rep s = s.
Proof.
  unfold replaceNewlines. induction 1 as [|c s Hc _ IH]; [done|].
  cbn [flat_map]. rewrite IH. by destruct (N.eqb_spec c 10).
Qed.

Lemma replaceNewlines_join rep lines :
  Forall (Forall (fun c => c <> 10)) lines ->
  replaceNewlines rep (join [10] lines) = join rep lines.
Proof.
  induction 1 as [|l lines Hl _ IH]; [done|].
  destruct lines as [|l' lines]; cbn [join] in *; [by apply replaceNewlines_line|].
  rewrite !replaceNewlines_app, IH, (replaceNewlines_line rep l Hl).
  unfold replaceNewlines at 1. cbn. by rewrite app_nil_r.
Qed.

Lemma lines_of s :
  exists lines, lines <> [] /\ Forall (Forall (fun c => c <> 10)) lines
                /\ s = join [10] lines.
Proof.
  induction s as [|c s (lines & Hne & Hl & ->)].
  - exists [[]]. split_and!; [done|by repeat constructor|done].
  - destruct lines as [|l rest]; [done|]. destruct (N.eq_dec c 10) as [->|Hc].
    + exists ([] :: l :: rest). split_and!; [done|by constructor|done].
    + apply Forall_cons in Hl as [Hl Hrest].
      exists ((c :: l) :: rest). split_and!; [done|by repeat constructor|].
      by destruct rest.
Qed.

(** X15: in the Body (HTML) of structured-array and flexible tabular mode
    every line feed of the description, the caution and the material is
    replaced by a break tag and nothing else changes: a text is a list of
    lines separated by line feeds, and it enters the body as the same lines
    separated by break tags, the caution and the material after their
    headings; so the body contains no line feed. *)
Theorem htmlBody_no_line_feed (description caution material : option jsstring) :
  Forall (fun c => c <> 10) (htmlBody description caution material)
  /\ (forall text, exists lines,
        Forall (Forall (fun c => c <> 10)) lines
        /\ text = join [10] lines
        /\ replaceNewlines (js "<br>") text = join (js "<br>") lines)
  /\ (forall lines,
        Forall (Forall (fun c => c <> 10)) lines ->
        join [10] lines <> [] ->
        htmlBody (Some (join [10] lines)) None None = join (js "<br>") lines
        /\ htmlBody None (Some (join [10] lines)) None
           = cautionPrefix ++ join (js "<br>") lines
        /\ htmlBody None None (Some (join [10] lines))
           = materialPrefix ++ join (js "<br>") lines)
  /\ htmlBody description caution material
     = htmlBody description None None
       ++ htmlBody None caution None ++ htmlBody None None material.
Proof.
  assert (Hbr : Forall (fun c => c <> 10) (js "<br>")) by (by repeat constructor).
  split_and!.
  - unfold htmlBody. repeat apply Forall_app_2.
    + destruct (truthy description); [by apply replaceNewlines_none|constructor].
    + destruct (truthy caution); [|constructor].
      apply Forall_app_2; [by repeat constructor|by apply replaceNewlines_none].
    + destruct (truthy material); [|constructor].
      apply Forall_app_2; [by repeat constructor|by apply replaceNewlines_none].
  - intros text. destruct (lines_of text) as (lines & _ & Hl & ->).
    exists lines. split_and!; [done|done|by apply replaceNewlines_join].
  - intros lines Hl Hne.
    pose proof (replaceNewlines_join (js "<br>") lines Hl) as Hrep.
    unfold htmlBody, truthy, orElse.
    destruct (join [10] lines) as [|c t] eqn:Ht; [done|].
    cbn [app]. rewrite Hrep, !app_nil_r. done.
  - unfold htmlBody. cbn [truthy app]. by rewrite !app_nil_r.
Qed.

Ltac header_known := by apply (bool_decide_unpack _); vm_compute.

Ltac known_columns :=
  let k := fresh "k" in
  let v := fresh "v" in
  let Hv := fresh "Hv" in
  intros k [v Hv];
  repeat (apply lookup_insert_Some in Hv as [[<- _]|[_ Hv]]; [header_known|]);
  first
    [ apply lookup_singleton_Some in Hv as [<- _]; header_known
    | apply elem_of_list_to_map_2 in Hv;
      repeat (apply elem_of_cons in Hv as [Hv|Hv];
              [injection Hv as -> _; header_known|]);
      by apply elem_of_nil in Hv ].

Lemma imageRows_known handle first urls :
  Forall knownColumns (imageRows handle first urls).
Proof.
  apply Forall_forall. intros row (i & u & -> & _)%elem_of_lookup_imap.
  unfold imageRow. known_columns.
Qed.

Lemma productRow_known p : knownColumns (productRow p).
Proof. unfold productRow. known_columns. Qed.

Lemma rowsWithImages_known p : Forall knownColumns (rowsWithImages p).
Proof.
  unfold rowsWithImages. destruct (collectImages p).
  { constructor; [apply productRow_known|constructor]. }
  constructor; [|apply imageRows_known]. unfold productRow. known_columns.
Qed.

Lemma expandCsv_known r k : Forall knownColumns (expandCsv r k).
Proof.
  unfold expandCsv. constructor; [|apply imageRows_known].
  unfold mainVariantRow, baseRow. known_columns.
Qed.

(** X16: every property the three expanding services set on a row is one of
    the eighteen columns of [MATRIXIFY_HEADERS], so the serialiser, which
    writes these columns only, drops nothing of a row. *)
Theorem output_rows_within_headers :
  (forall data, Forall knownColumns (jsonLoop data).1)
  /\ (forall inputRows, Forall knownColumns (outputRows (csvLoop inputRows)))
  /\ (forall d, Forall knownColumns (scrapedRows d)).
Proof.
  split_and!.
  - induction data as [|p pre IH] using rev_ind; [constructor|].
    rewrite jsonLoop_snoc. unfold jsonStep. destruct (_ && _); cbn [fst].
    + apply Forall_app_2; [done|apply rowsWithImages_known].
    + apply Forall_app_2; [done|]. constructor; [apply productRow_known|constructor].
  - induction inputRows as [|r pre IH] using rev_ind; [constructor|].
    rewrite csvLoop_snoc.
    destruct (csvStep_cases (csvLoop pre) r)
      as [(-> & _)|(k' & _ & _ & _ & -> & _)]; [done|].
    apply Forall_app_2; [done|apply expandCsv_known].
  - intros d. unfold scrapedRows. constructor; [|apply imageRows_known].
    unfold scrapedMainRow. known_columns.
Qed.

(** *** White space at the ends *)

Lemma trimStart_Forall (P : N -> Prop) s : Forall P s -> Forall P (trimStart s).
Proof.
  induction 1 as [|c s Hc Hs IH]; simpl; [constructor|].
  destruct (isSpace c); [done|by constructor].
Qed.

Lemma trimEnd_cons c s :
  trimEnd (c :: s)
  = match trimEnd s with
    | [] => if isSpace c then [] else [c]
    | r => c :: r
    end.
Proof. reflexivity. Qed.

Lemma trimEnd_Forall (P : N -> Prop) s : Forall P s -> Forall P (trimEnd s).
Proof.
  induction 1 as [|c s Hc Hs IH]; [constructor|]. rewrite trimEnd_cons.
  destruct (trimEnd s) as [|x r].
  - destruct (isSpace c); by repeat constructor.
  - by constructor.
Qed.

Lemma trimStart_fixed s : trimStart (trimStart s) = trimStart s.
Proof.
  induction s as [|c s IH]; [done|]. simpl.
  destruct (isSpace c) eqn:Hc; [done|]. simpl. by rewrite Hc.
Qed.

Lemma trimEnd_fixed s : trimEnd (trimEnd s) = trimEnd s.
Proof.
  induction s as [|c s IH]; [done|]. rewrite trimEnd_cons.
  destruct (trimEnd s) as [|x r] eqn:Hr.
  - destruct (isSpace c) eqn:Hc; [done|]. simpl. by rewrite Hc.
  - by rewrite trimEnd_cons, IH.
Qed.

Lemma trimStart_head s :
  trimStart s = s <-> match s with c :: _ => isSpace c = false | [] => True end.
Proof.
  destruct s as [|c s]; [done|]. simpl. destruct (isSpace c) eqn:Hc; [|done].
  split; [|done]. intros H.
  assert (Hlen : forall t, (length (trimStart t) <= length t)%nat).
  { induction t as [|x t IHt]; simpl; [lia|]. destruct (isSpace x); simpl; lia. }
  specialize (Hlen s). rewrite H in Hlen. simpl in Hlen. lia.
Qed.

Lemma trimEnd_keeps_start s : trimStart s = s -> trimStart (trimEnd s) = trimEnd s.
Proof.
  rewrite !trimStart_head. destruct s as [|c s]; [done|]. intros Hc.
  rewrite trimEnd_cons. destruct (trimEnd s); [by rewrite Hc|done].
Qed.

Lemma trim_fixed s : trim (trim s) = trim s.
Proof.
  unfold trim. rewrite (trimEnd_keeps_start (trimStart s)) by apply trimStart_fixed.
  apply trimEnd_fixed.
Qed.

Lemma splitThumbs_pieces s :
  Forall (Forall (fun c => c <> 59 /\ c <> 44)) (splitThumbs s).
Proof.
  induction s as [|c s IH]; [by repeat constructor|]. cbn [splitThumbs].
  destruct (N.eqb_spec c 59) as [->|H59]; [by constructor|].
  destruct (N.eqb_spec c 44) as [->|H44]; [by constructor|]. cbn [orb].
  destruct (splitThumbs s) as [|piece pieces]; [by repeat constructor|].
  apply Forall_cons in IH as [Hp Hps]. by repeat constructor.
Qed.

(** X17: the thumbnail URLs flexible tabular mode reads from the
    [thumbnailImages] cell are not empty, carry no white space at either
    end, and contain neither a semicolon nor a comma. *)
Theorem parseThumbs_urls (thumbStr : jsstring) :
  Forall (fun u => u <> [] /\ trim u = u /\ Forall (fun c => c <> 59 /\ c <> 44) u)
         (parseThumbs thumbStr).
Proof.
  unfold parseThumbs. apply Forall_forall. intros u Hu.
  apply list_elem_of_In, filter_In in Hu as [Hu Hne].
  apply in_map_iff in Hu as (piece & <- & Hpiece).
  split; [by destruct (trim piece)|]. split; [apply trim_fixed|].
  unfold trim. apply trimEnd_Forall, trimStart_Forall.
  apply (proj1 (Forall_forall _ _) (splitThumbs_pieces thumbStr)).
  by apply list_elem_of_In.
Qed.

Lemma collect_clean thumbs : forall acc,
  Forall (fun u => u <> []) thumbs -> NoDup (acc ++ thumbs) ->
  foldl pushThumb acc thumbs = acc ++ thumbs.
Proof.
  induction thumbs as [|t thumbs IH]; intros acc Hne Hnd; [by rewrite app_nil_r|].
  apply Forall_cons in Hne as [Ht Hne]. cbn [foldl].
  assert (pushThumb acc t = acc ++ [t]) as ->.
  { unfold pushThumb, includes. destruct t; [done|].
    rewrite bool_decide_eq_false_2; [done|].
    apply NoDup_app in Hnd as (_ & Hnd & _). intros Hin. apply (Hnd _ Hin), list_elem_of_here. }
  rewrite IH, <- app_assoc; [done|done|]. by rewrite <- app_assoc.
Qed.

(** X18: when the main image and the thumbnails of a structured-array
    record are pairwise distinct and no thumbnail is empty, the image list
    is the main image, if any, followed by all the thumbnails in their
    order: the deduplication drops nothing. *)
Theorem collectImages_clean (p : Kadoa.Product) :
  let main := if truthy (Kadoa.mainImage p)
              then [orElse (Kadoa.mainImage p) []] else [] in
  let thumbs := default [] (Kadoa.thumbnailImages p) in
  Forall (fun u => u <> []) thumbs -> NoDup (main ++ thumbs) ->
  collectImages p = main ++ thumbs.
Proof. intros main thumbs Hne Hnd. by apply collect_clean. Qed.


(** ** The two descriptions of a slug agree *)

Lemma isHyphen_eq c : isHyphen c = true <-> c = HYPHEN.
Proof. unfold isHyphen. apply N.eqb_eq. Qed.

Lemma noDoubleHyphen_infix s :
  noDoubleHyphen s = true <->
  forall before after, s <> before ++ [HYPHEN; HYPHEN] ++ after.
Proof.
  induction s as [|c s IH].
  - split; [|done]. intros _ before after H. by destruct before.
  - destruct s as [|c' s'].
    + split; [|done]. intros _ before after H.
      destruct before as [|? [|? ?]]; done.
    + rewrite noDoubleHyphen_cons, andb_true_iff, negb_true_iff, IH. split.
      * intros [Hcc Hs] before after H. destruct before as [|b before].
        -- cbn in H. injection H as -> -> _. done.
        -- cbn in H. injection H as _ H. by apply (Hs before after).
      * intros H. split.
        -- destruct (isHyphen c) eqn:Hc, (isHyphen c') eqn:Hc'; try done.
           apply isHyphen_eq in Hc as ->. apply isHyphen_eq in Hc' as ->.
           by destruct (H [] s').
        -- intros before after Heq. apply (H (c :: before) after). cbn. by rewrite Heq.
Qed.

Lemma trimHyphensStart_head s : trimHyphensStart s = s <-> head s <> Some HYPHEN.
Proof.
  destruct s as [|c s]; [done|]. cbn [trimHyphensStart head].
  destruct (isHyphen c) eqn:Hc.
  - apply isHyphen_eq in Hc as ->. split; [|done]. intros H.
    assert (Hlen : forall t, (length (trimHyphensStart t) <= length t)%nat).
    { induction t as [|x t IHt]; simpl; [lia|]. destruct (isHyphen x); simpl; lia. }
    specialize (Hlen s). rewrite H in Hlen. simpl in Hlen. lia.
  - split; [|done]. intros _ [= ->]. done.
Qed.

Lemma trimHyphensEnd_last s : trimHyphensEnd s = s <-> last s <> Some HYPHEN.
Proof.
  induction s as [|c s IH]; [done|]. rewrite trimHyphensEnd_cons.
  destruct s as [|c' s'].
  - cbn. destruct (isHyphen c) eqn:Hc.
    + apply isHyphen_eq in Hc as ->. done.
    + split; [|done]. intros _ [= ->]. done.
  - change (last (c :: c' :: s')) with (last (c' :: s')). rewrite <- IH.
    destruct (trimHyphensEnd (c' :: s')) as [|x r] eqn:Hr.
    + split; [by destruct (isHyphen c)|done].
    + split; [by intros [= -> ->]|by intros ->].
Qed.

Lemma isSlug_wellFormed s : isSlug s <-> wellFormedSlug s.
Proof.
  unfold wellFormedSlug.
  rewrite <- noDoubleHyphen_infix, <- trimHyphensStart_head, <- trimHyphensEnd_last.
  split; [intros [? ? ? ?]; done|intros (? & ? & ? & ?); by split].
Qed.

(** ** Images are attached once per handle *)

Lemma handleImagePairs_app rows rows' :
  handleImagePairs (rows ++ rows') = handleImagePairs rows ++ handleImagePairs rows'.
Proof. unfold handleImagePairs. apply omap_app. Qed.

Lemma handleImagePairs_cons (r : MatrixifyRow) rows :
  handleImagePairs (r :: rows)
  = match r !! "Image Src" with
    | Some src => (r !! "Handle", src) :: handleImagePairs rows
    | None => handleImagePairs rows
    end.
Proof. unfold handleImagePairs. cbn [omap list_omap]. by destruct (r !! "Image Src"). Qed.

Lemma handleImagePairs_imageRows handle first urls :
  handleImagePairs (imageRows handle first urls)
  = (fun u => (Some (Str handle), Str u)) <$> urls.
Proof.
  unfold imageRows. revert first.
  induction urls as [|u urls IH]; intros first; [done|].
  cbn [imap fmap list_fmap]. rewrite handleImagePairs_cons, imageRow_src, imageRow_handle.
  f_equal. rewrite <- (IH (1 + first)%Z). f_equal. apply imap_ext.
  intros i x _. unfold imageRow, compose. do 4 f_equal. lia.
Qed.

Lemma handleImagePairs_rowsWithImages p :
  handleImagePairs (rowsWithImages p)
  = (fun u => (Some (Str (jsonHandle p)), Str u)) <$> collectImages p.
Proof.
  unfold rowsWithImages. destruct (collectImages p) as [|first others].
  - rewrite handleImagePairs_cons. by rewrite (proj1 (productRow_no_image p)).
  - rewrite handleImagePairs_cons, lookup_insert_ne, lookup_insert_eq by done.
    rewrite lookup_insert_ne, lookup_insert_ne by done.
    change (productRow p !! "Handle") with (Some (Str (jsonHandle p))).
    by rewrite handleImagePairs_imageRows.
Qed.

Lemma collectImages_nonblank p : Forall (fun u => u <> []) (collectImages p).
Proof.
  apply Forall_forall. intros u Hu. unfold collectImages in Hu.
  apply collect_elem in Hu as [Hu|[_ Hu]]; [|done].
  unfold truthy, orElse in Hu. destruct (Kadoa.mainImage p) as [[|c m]|].
  - by apply elem_of_nil in Hu.
  - by apply list_elem_of_singleton in Hu as ->.
  - by apply elem_of_nil in Hu.
Qed.

Lemma jsonLoop_pairs data :
  NoDup (handleImagePairs (jsonLoop data).1)
  /\ forall hc src, (hc, src) ∈ handleImagePairs (jsonLoop data).1 ->
       exists h u, hc = Some (Str h) /\ src = Str u /\ u <> [] /\ h ∈ (jsonLoop data).2.
Proof.
  induction data as [|p pre [IHn IHs]] using rev_ind.
  - unfold jsonLoop. cbn. split; [constructor|]. intros ? ? H. by apply elem_of_nil in H.
  - rewrite jsonLoop_snoc. unfold jsonStep.
    destruct (hasImages p && negb (bool_decide (jsonHandle p ∈ (jsonLoop pre).2)))
      eqn:Hcond; cbn [fst snd]; rewrite handleImagePairs_app.
    + apply andb_true_iff in Hcond as [_ Hfresh].
      apply negb_true_iff, bool_decide_eq_false in Hfresh.
      rewrite handleImagePairs_rowsWithImages.
      assert (Hnew : forall hc src,
                (hc, src) ∈ (fun u => (Some (Str (jsonHandle p)), Str u)) <$> collectImages p ->
                exists u, hc = Some (Str (jsonHandle p)) /\ src = Str u /\ u <> []).
      { intros hc src (u & [= -> ->] & Hu)%list_elem_of_fmap. exists u.
        split_and!; [done..|].
        by apply (proj1 (Forall_forall _ _) (collectImages_nonblank p)). }
      split.
      * apply NoDup_app. split_and!; [done| |].
        -- intros [hc src] Hold Hin. apply Hnew in Hin as (u & -> & _).
           apply IHs in Hold as (h & _ & [= <-] & _ & _ & Hseen). done.
        -- apply NoDup_fmap_2; [by intros x y [= ->]|].
           unfold collectImages. apply collect_NoDup.
           destruct (truthy _); [apply NoDup_singleton|constructor].
      * intros hc src [Hold|Hin]%elem_of_app.
        -- apply IHs in Hold as (h & u & ? & ? & ? & ?). exists h, u.
           split_and!; [done..|]. set_solver.
        -- apply Hnew in Hin as (u & ? & ? & ?). exists (jsonHandle p), u.
           split_and!; [done..|]. set_solver.
    + change (handleImagePairs [productRow p]) with (@nil (option cell * cell)).
      by rewrite app_nil_r.
Qed.

Lemma imagesOfHandle_app h rows rows' :
  imagesOfHandle h (rows ++ rows') = imagesOfHandle h rows ++ imagesOfHandle h rows'.
Proof. unfold imagesOfHandle. apply omap_app. Qed.

Lemma imagesOfHandle_same h rows :
  Forall (fun r : MatrixifyRow => r !! "Handle" = Some (Str h)) rows ->
  imagesOfHandle h rows = imageSrcs rows.
Proof.
  unfold imagesOfHandle, imageSrcs. induction 1 as [|r rows Hr _ IH]; [done|].
  cbn [omap list_omap]. by rewrite Hr, bool_decide_eq_true_2, IH.
Qed.

Lemma imagesOfHandle_other h h' rows :
  h' <> h ->
  Forall (fun r : MatrixifyRow => r !! "Handle" = Some (Str h')) rows ->
  imagesOfHandle h rows = [].
Proof.
  intros Hh. unfold imagesOfHandle. induction 1 as [|r rows Hr _ IH]; [done|].
  cbn [omap list_omap]. by rewrite Hr, bool_decide_eq_false_2, IH.
Qed.

Lemma imagesOfHandle_rowsWithImages h p :
  imagesOfHandle h (rowsWithImages p)
  = if bool_decide (jsonHandle p = h) then Str <$> collectImages p else [].
Proof.
  destruct (rowsWithImages_handle p) as [_ Hrows]. case_bool_decide as Hh.
  - subst h. by rewrite imagesOfHandle_same, imageSrcs_rowsWithImages.
  - by apply (imagesOfHandle_other h (jsonHandle p)).
Qed.

Lemma imagesOfHandle_productRow h p : imagesOfHandle h [productRow p] = [].
Proof.
  unfold imagesOfHandle. cbn [omap list_omap].
  change (productRow p !! "Handle") with (Some (Str (jsonHandle p))).
  rewrite (proj1 (productRow_no_image p)). by case_bool_decide.
Qed.

Lemma imagesOfHandle_unseen data h :
  h ∉ (jsonLoop data).2 -> imagesOfHandle h (jsonLoop data).1 = [].
Proof.
  induction data as [|p pre IH] using rev_ind; [done|].
  rewrite jsonLoop_snoc. unfold jsonStep.
  destruct (hasImages p && negb (bool_decide (jsonHandle p ∈ (jsonLoop pre).2)));
    cbn [fst snd]; intros Hh; rewrite imagesOfHandle_app.
  - rewrite IH by set_solver. rewrite imagesOfHandle_rowsWithImages.
    rewrite bool_decide_eq_false_2 by set_solver. done.
  - by rewrite IH, imagesOfHandle_productRow.
Qed.

Lemma imagesOfHandle_seen h post : forall st : jsonState,
  h ∈ st.2 -> imagesOfHandle h (foldl jsonStep st post).1 = imagesOfHandle h st.1.
Proof.
  induction post as [|q post IH]; intros st Hh; [done|].
  cbn [foldl]. rewrite IH.
  - unfold jsonStep.
    destruct (hasImages q && negb (bool_decide (jsonHandle q ∈ st.2))) eqn:Hcond;
      cbn [fst]; rewrite imagesOfHandle_app.
    + apply andb_true_iff in Hcond as [_ Hfresh].
      apply negb_true_iff, bool_decide_eq_false in Hfresh.
      rewrite imagesOfHandle_rowsWithImages, bool_decide_eq_false_2, app_nil_r; [done|].
      intros Heq. by rewrite Heq in Hfresh.
    + by rewrite imagesOfHandle_productRow, app_nil_r.
  - unfold jsonStep. destruct (_ && _); cbn [snd]; set_solver.
Qed.

Lemma jsonLoop_images_of_first pre p post :
  hasImages p = true ->
  (forall q, q ∈ pre -> jsonHandle q = jsonHandle p -> hasImages q = false) ->
  imagesOfHandle (jsonHandle p) (jsonLoop (pre ++ p :: post)).1
  = Str <$> collectImages p.
Proof.
  intros Hp Hfresh.
  assert (Hunseen : jsonHandle p ∉ (jsonLoop pre).2).
  { intros (q & Hq & Hi & Hh)%jsonLoop_seen. specialize (Hfresh q Hq Hh). congruence. }
  unfold jsonLoop at 1. rewrite foldl_app. cbn [foldl]. fold (jsonLoop pre).
  assert (Hstep : jsonStep (jsonLoop pre) p
                  = ((jsonLoop pre).1 ++ rowsWithImages p,
                     {[jsonHandle p]} ∪ (jsonLoop pre).2)).
  { unfold jsonStep. by rewrite Hp, bool_decide_eq_false_2. }
  rewrite imagesOfHandle_seen by (rewrite Hstep; cbn [snd]; set_solver).
  rewrite Hstep. cbn [fst].
  rewrite imagesOfHandle_app, (imagesOfHandle_unseen pre) by done.
  rewrite imagesOfHandle_rowsWithImages, bool_decide_eq_true_2 by done. done.
Qed.

(** X24: in the output of structured-array mode images are attached to a
    handle once, by the first record of that handle that has a main image
    or a non-empty thumbnail array: the Image Src cells of the rows with
    that handle are, in row order, the images collected from that record,
    whatever the records before it without images and the records after
    it; a handle no such record produced carries no Image Src cell.  So no
    (Handle, Image Src) pair occurs twice, and no Image Src cell is
    empty. *)
Theorem json_images_once_per_handle (data : list Kadoa.Product) :
  NoDup (handleImagePairs (jsonLoop data).1)
  /\ Forall (fun src => src <> Str []) (imageSrcs (jsonLoop data).1)
  /\ (forall pre p post,
        data = pre ++ p :: post ->
        hasImages p = true ->
        (forall q, q ∈ pre -> jsonHandle q = jsonHandle p -> hasImages q = false) ->
        imagesOfHandle (jsonHandle p) (jsonLoop data).1 = Str <$> collectImages p)
  /\ (forall h,
        (forall q, q ∈ data -> jsonHandle q = h -> hasImages q = false) ->
        imagesOfHandle h (jsonLoop data).1 = []).
Proof.
  destruct (jsonLoop_pairs data) as [Hn Hs]. split_and!; [done| | |].
  - apply Forall_forall. intros src Hsrc.
    assert (exists hc, (hc, src) ∈ handleImagePairs (jsonLoop data).1) as [hc Hin].
    { unfold imageSrcs, handleImagePairs in *.
      apply list_elem_of_omap in Hsrc as (row & Hrow & Hsrc).
      exists (row !! "Handle"). apply list_elem_of_omap. exists row. split; [done|].
      by rewrite Hsrc. }
    apply Hs in Hin as (h & u & _ & -> & Hu & _). by intros [= ->].
  - intros pre p post -> Hp Hfresh. by apply jsonLoop_images_of_first.
  - intros h Hnone. apply imagesOfHandle_unseen.
    intros (q & Hq & Hi & Hh)%jsonLoop_seen. specialize (Hnone q Hq Hh). congruence.
Qed.

(** ** [slugify], given the two facts about [toLowerCase] *)

Hypothesis toLowerCase_ascii : lowers_ascii toLowerCase.
Hypothesis toLowerCase_never_upper : never_upper toLowerCase.

Lemma toLowerCase_slug s :
  Forall (fun c => isSlugChar c = true) s -> toLowerCase s = s.
Proof.
  intros Hs. rewrite toLowerCase_ascii.
  - induction Hs as [|c s Hc Hs IH]; simpl; [done|].
    by rewrite (lowerAscii_slugChar c Hc), IH.
  - eapply Forall_impl; [exact Hs|]. apply slugChar_ascii.
Qed.

Lemma isSlug_nil : isSlug [].
Proof. by split. Qed.

(** Whatever the text, [slugify] returns a slug. *)
Lemma slugify_isSlug text : isSlug (slugify text).
Proof.
  destruct text as [[|c t]|]; try apply isSlug_nil.
  unfold slugify, slugSteps. set (u := toLowerCase (c :: t)).
  assert (Hchars : Forall (fun c => isSlugChar c = true)
            (stripNonWord (replaceAmp (replaceTable (replaceSpaces u))))).
  { apply stripNonWord_slugChars, replaceAmp_Forall; [by repeat constructor|].
    apply replaceTable_lower, replaceSpaces_Forall; [done|].
    apply toLowerCase_never_upper. }
  set (v := stripNonWord _) in *. split.
  - by apply trimHyphensEnd_Forall, trimHyphensStart_Forall, collapseHyphens_Forall.
  - apply trimHyphensEnd_noDouble, trimHyphensStart_noDouble, collapseHyphens_noDouble.
  - apply trimHyphensEnd_keeps_start, trimHyphensStart_fixed.
  - apply trimHyphensEnd_fixed.
Qed.

(** On a slug, every step of [slugify] is the identity. *)
Lemma slugify_slug s : isSlug s -> slugify (Some s) = s.
Proof.
  intros [Hc Hd Hl Ht]. destruct s as [|c s]; [done|].
  unfold slugify, slugSteps.
  rewrite (toLowerCase_slug _ Hc), (replaceSpaces_slug _ Hc),
    (replaceTable_slug _ Hc), (replaceAmp_slug _ Hc), (stripNonWord_slug _ Hc),
    (collapseHyphens_fixed _ Hd), Hl, Ht.
  done.
Qed.

(** C4: [slugify] is idempotent: for every text [x], absent or present,
    [slugify(slugify(x))] equals [slugify(x)]. *)
Theorem slugify_idempotent (x : option jsstring) :
  slugify (Some (slugify x)) = slugify x.
Proof. apply slugify_slug, slugify_isSlug. Qed.

Lemma slugify_ascii t :
  t <> [] -> Forall isAscii t -> slugify (Some t) = slugSteps (map lowerAscii t).
Proof.
  intros Hne Ht. destruct t; [done|]. unfold slugify. by rewrite toLowerCase_ascii.
Qed.

Lemma jsonHandle_tuxedo : jsonHandle tuxedo = js "tuxedo".
Proof.
  unfold jsonHandle, tuxedo; cbn [Kadoa.productName Kadoa.productId].
  rewrite slugify_ascii; [done|done|].
  apply Forall_forall. intros c Hc. unfold isAscii.
  apply list_elem_of_In in Hc. vm_compute in Hc. intuition (subst; done).
Qed.

(** C2: in structured-array mode the single record
    [{productId:"207", productName:"TUXEDO", mainImage:"http://x/1.jpg",
    thumbnailImages:["http://x/2.jpg","http://x/1.jpg"]}] yields exactly two
    rows: the duplicate thumbnail is dropped, the first row has Handle
    "tuxedo" and Image Position 1, the second has Image Src
    "http://x/2.jpg" and Image Position 2. *)
Theorem processJson_tuxedo :
  collectImages tuxedo = [js "http://x/1.jpg"; js "http://x/2.jpg"]
  /\ map rowView (rowsOf (processJson (DataArray [tuxedo])))
     = [ (Some (Str (js "207")), Some (Str (js "tuxedo")),
          Some (Str (js "http://x/1.jpg")), Some (Num 1));
         (None, Some (Str (js "tuxedo")),
          Some (Str (js "http://x/2.jpg")), Some (Num 2)) ].
Proof.
  split; [vm_compute; reflexivity|].
  unfold processJson, jsonLoop. cbn [foldl].
  unfold jsonStep, rowsWithImages, productRow. cbn [fst snd].
  rewrite jsonHandle_tuxedo. vm_compute. reflexivity.
Qed.

(** ** Further properties of the slug generator *)

(** X20: whatever the text, [slugify] returns a string of lower-case
    letters, digits and hyphens, without two hyphens side by side and
    without a hyphen first or last; in particular it contains no
    underscore, upper-case letter, white space or non-ASCII character. *)
Theorem slugify_well_formed (text : option jsstring) :
  wellFormedSlug (slugify text).
Proof. apply isSlug_wellFormed, slugify_isSlug. Qed.

(** X21: the texts [slugify] leaves unchanged are exactly the well-formed
    slugs. *)
Theorem slugify_fixed_points (s : jsstring) :
  slugify (Some s) = s <-> wellFormedSlug s.
Proof.
  split.
  - intros <-. apply isSlug_wellFormed, slugify_isSlug.
  - intros H. by apply slugify_slug, isSlug_wellFormed.
Qed.

(** X22: on ASCII texts [slugify] ignores letter case: two texts that
    differ in the case of their letters only have the same slug. *)
Theorem slugify_ignores_ascii_case (t t' : jsstring) :
  Forall isAscii t -> Forall isAscii t' ->
  map lowerAscii t = map lowerAscii t' ->
  slugify (Some t) = slugify (Some t').
Proof.
  intros Ht Ht' Heq.
  destruct t as [|c t]; [by destruct t'|]. destruct t' as [|c' t']; [done|].
  by rewrite !slugify_ascii, Heq.
Qed.

(** X23: every row flexible tabular mode puts out has a Handle that is
    not empty and is a well-formed slug. *)
Theorem csv_handles_are_slugs (inputRows : list InputRow) :
  Forall (fun row : MatrixifyRow =>
            exists h, row !! "Handle" = Some (Str h) /\ h <> [] /\ wellFormedSlug h)
         (outputRows (csvLoop inputRows)).
Proof.
  induction inputRows as [|r pre IH] using rev_ind; [constructor|].
  rewrite csvLoop_snoc.
  destruct (csvStep_cases (csvLoop pre) r)
    as [(-> & _)|(k & _ & _ & Hh & -> & _)]; [done|].
  apply Forall_app_2; [done|].
  eapply Forall_impl; [apply expandCsv_handle|].
  intros row Hrow. exists (csvHandle r k). split_and!; [done..|].
  apply isSlug_wellFormed. unfold csvHandle.
  pose proof (slugify_isSlug (Some (csvTitle r k))) as Ht.
  destruct (slugify (Some (csvTitle r k))); [apply slugify_isSlug|done].
Qed.

End Pipeline.

(** * The Latin instance of [toLowerCase] *)

Lemma lowerUnit_latin_ascii c : isAscii c -> lowerUnit_latin c = [lowerAscii c].
Proof.
  intros Hc. unfold lowerUnit_latin, lowerAscii.
  destruct (isUpperAZ c) eqn:Hu; [done|].
  repeat match goal with
         | |- context [if ?b then _ else _] =>
             replace b with false by (symmetry; reflect_chars; lia)
         end.
  done.
Qed.

Lemma latin_lowers_ascii : lowers_ascii toLowerCase_latin.
Proof.
  intros s. unfold toLowerCase_latin.
  induction 1 as [|c s Hc Hs IH]; cbn [flat_map map]; [done|].
  by rewrite (lowerUnit_latin_ascii c Hc), IH.
Qed.

Lemma lowerUnit_latin_never_upper c :
  Forall (fun x => isUpperAZ x = false) (lowerUnit_latin c).
Proof.
  unfold lowerUnit_latin.
  repeat match goal with
         | |- context [if ?b then _ else _] => destruct b eqn:?
         end;
    repeat constructor; reflect_chars; lia.
Qed.

Lemma latin_never_upper : never_upper toLowerCase_latin.
Proof.
  intros s. unfold toLowerCase_latin. apply Forall_flat_map, Forall_forall.
  intros c _. apply lowerUnit_latin_never_upper.
Qed.

(** * Closed instances *)

Example slugify_satin_twill :
  slugify toLowerCase_latin (Some (js "D747 Satin Twill Dress - Burgundy"))
  = js "d747-satin-twill-dress-burgundy".
Proof. vm_compute. reflexivity. Qed.

Lemma slugify_idempotent_witness :
  lowers_ascii toLowerCase_latin /\ never_upper toLowerCase_latin
  /\ slugify toLowerCase_latin
       (Some (slugify toLowerCase_latin (Some (js "Satin & Twill  Dress_"))))
     = slugify toLowerCase_latin (Some (js "Satin & Twill  Dress_")).
Proof.
  split; [exact latin_lowers_ascii|]. split; [exact latin_never_upper|].
  exact (slugify_idempotent toLowerCase_latin latin_lowers_ascii latin_never_upper
           (Some (js "Satin & Twill  Dress_"))).
Defined.

Lemma processJson_tuxedo_witness :
  lowers_ascii toLowerCase_latin
  /\ map rowView (rowsOf (processJson toLowerCase_latin (DataArray [tuxedo])))
     = [ (Some (Str (js "207")), Some (Str (js "tuxedo")),
          Some (Str (js "http://x/1.jpg")), Some (Num 1));
         (None, Some (Str (js "tuxedo")),
          Some (Str (js "http://x/2.jpg")), Some (Num 2)) ].
Proof.
  split; [exact latin_lowers_ascii|].
  exact (proj2 (processJson_tuxedo toLowerCase_latin latin_lowers_ascii)).
Defined.

(** ** Structured-array mode *)

(** C10, the claim as first stated: the second record repeats the Handle
    of the first, which had no images, and still gets Image Src, Image
    Position and a continuation row. *)
Lemma repeated_handle_gets_images :
  jsonHandle toLowerCase_latin tuxedo = jsonHandle toLowerCase_latin tuxedoBare
  /\ map rowView
         (rowsOf (processJson toLowerCase_latin (DataArray [tuxedoBare; tuxedo])))
     = [ (Some (Str (js "208")), Some (Str (js "tuxedo")), None, None);
         (Some (Str (js "207")), Some (Str (js "tuxedo")),
          Some (Str (js "http://x/1.jpg")), Some (Num 1));
         (None, Some (Str (js "tuxedo")),
          Some (Str (js "http://x/2.jpg")), Some (Num 2)) ].
Proof. split; vm_compute; reflexivity. Qed.

Lemma repeated_handle_keeps_primary_row_witness :
  (hasImages tuxedoClean = true
   /\ (jsonLoop toLowerCase_latin ([tuxedo] ++ [tuxedoClean])).1
      = (jsonLoop toLowerCase_latin [tuxedo]).1
        ++ [productRow toLowerCase_latin tuxedoClean]
   /\ productRow toLowerCase_latin tuxedoClean !! "Image Src" = None)
  /\ (jsonLoop toLowerCase_latin ([tuxedoBare] ++ [tuxedo])).1
     = (jsonLoop toLowerCase_latin [tuxedoBare]).1
       ++ <["Image Position" := Num 1]>
            (<["Image Src" := Str (js "http://x/1.jpg")]>
               (productRow toLowerCase_latin tuxedo))
          :: imageRows (jsonHandle toLowerCase_latin tuxedo) 2 [js "http://x/2.jpg"].
Proof.
  split.
  - destruct (repeated_handle_keeps_primary_row toLowerCase_latin [tuxedo] tuxedoClean)
      as [H _].
    destruct H as (Hrows & _ & Hsrc & _).
    + exists tuxedo. split; [apply list_elem_of_here|]. split; vm_compute; reflexivity.
    + split; [reflexivity|]. exact (conj Hrows Hsrc).
  - destruct (repeated_handle_keeps_primary_row toLowerCase_latin [tuxedoBare] tuxedo)
      as [_ H].
    apply (H (js "http://x/1.jpg") [js "http://x/2.jpg"]).
    + vm_compute. reflexivity.
    + intros q Hq _. apply list_elem_of_singleton in Hq as ->. reflexivity.
Defined.

Lemma business_keys_unique_witness :
  (variantSkus (rowsOf (processCsv toLowerCase_latin [csvUpperKey; csvLowerKey]).1)
   = [Str (js "D747"); Str (js "d747")]
   /\ primaryHandles (rowsOf (processCsv toLowerCase_latin [csvUpperKey; csvLowerKey]).1)
      = [Str (csvHandle toLowerCase_latin csvUpperKey (js "D747"));
         Str (csvHandle toLowerCase_latin csvUpperKey (js "D747"))])
  /\ csvHandle toLowerCase_latin csvUpperKey (js "D747") = js "dress-d747"
  /\ primaryHandles (rowsOf (processJson toLowerCase_latin (DataArray [tuxedo; tuxedoBare])))
     = [Str (jsonHandle toLowerCase_latin tuxedo); Str (jsonHandle toLowerCase_latin tuxedo)]
  /\ Kadoa.productId tuxedo <> Kadoa.productId tuxedoBare.
Proof.
  destruct (business_keys_unique toLowerCase_latin) as (_ & Hcsv & _ & _ & Hjson).
  split; [|split; [|split]].
  - apply (Hcsv csvUpperKey csvLowerKey (js "D747") (js "d747")).
    + vm_compute. reflexivity.
    + vm_compute. reflexivity.
    + vm_compute. discriminate.
    + vm_compute. discriminate.
    + vm_compute. reflexivity.
  - vm_compute. reflexivity.
  - apply (Hjson tuxedo tuxedoBare). vm_compute. reflexivity.
  - vm_compute. discriminate.
Defined.

(** C6, the claim as first stated: distinct business keys, one Handle, in
    structured-array mode (207 and 208, both named TUXEDO) and in flexible
    tabular mode (D747 and d747, both named Dress). *)
Lemma distinct_keys_share_handle :
  (variantSkus (rowsOf (processJson toLowerCase_latin (DataArray [tuxedo; tuxedoBare])))
   = [Str (js "207"); Str (js "208")]
   /\ primaryHandles
        (rowsOf (processJson toLowerCase_latin (DataArray [tuxedo; tuxedoBare])))
      = [Str (js "tuxedo"); Str (js "tuxedo")])
  /\ (variantSkus (rowsOf (processCsv toLowerCase_latin [csvUpperKey; csvLowerKey]).1)
      = [Str (js "D747"); Str (js "d747")]
      /\ primaryHandles
           (rowsOf (processCsv toLowerCase_latin [csvUpperKey; csvLowerKey]).1)
         = [Str (js "dress-d747"); Str (js "dress-d747")]).
Proof. split_and!; vm_compute; reflexivity. Qed.

(** ** Flexible tabular mode *)



(** C8, the claim as first stated: in flexible tabular mode a record
    without any image yields one row whose Image Position is 1, not
    blank. *)
Lemma no_image_row_has_position :
  getCol csvNoImage Field.main_image = None
  /\ csvThumbs csvNoImage = []
  /\ map rowView (rowsOf (processCsv toLowerCase_latin [csvNoImage]).1)
     = [ (Some (Str (js "207")), Some (Str (js "tuxedo-207")),
          Some (Str []), Some (Num 1)) ]
  /\ map (fun row => isBlank row "Image Position")
         (rowsOf (processCsv toLowerCase_latin [csvNoImage]).1)
     = [false].
Proof. split_and!; vm_compute; reflexivity. Qed.

Lemma no_image_single_row_witness :
  (jsonStep toLowerCase_latin ([], ∅) tuxedoBare).1
  = [productRow toLowerCase_latin tuxedoBare]
  /\ expandCsv toLowerCase_latin csvNoImage (js "207")
     = [mainVariantRow toLowerCase_latin csvNoImage (js "207")].
Proof.
  destruct (no_image_single_row toLowerCase_latin) as (Hjson & Hcsv & _).
  split.
  - apply (Hjson ([], ∅) tuxedoBare). vm_compute. reflexivity.
  - apply (Hcsv csvNoImage (js "207")); vm_compute; reflexivity.
Defined.

(** C7, the claim as first stated: the first record with key [#] yields no
    handle and is skipped, and the later record with the same key is
    expanded. *)
Lemma later_occurrence_expanded :
  getCol csvSymbols Field.product_id = Some (js "#")
  /\ getCol csvSymbolsNamed Field.product_id = Some (js "#")
  /\ outputRows (csvLoop toLowerCase_latin [csvSymbols]) = []
  /\ map rowView (outputRows (csvLoop toLowerCase_latin [csvSymbols; csvSymbolsNamed]))
     = [ (Some (Str (js "#")), Some (Str (js "dress")), Some (Str []), Some (Num 1)) ].
Proof. split_and!; vm_compute; reflexivity. Qed.

Lemma first_usable_occurrence_wins_witness :
  outputRows (csvLoop toLowerCase_latin ([csvTuxedo] ++ csvTuxedoAgain :: [csvUpperKey]))
  = outputRows (csvLoop toLowerCase_latin ([csvTuxedo] ++ [csvUpperKey]))
  /\ (outputRows (csvLoop toLowerCase_latin ([] ++ csvSymbols :: [csvSymbolsNamed]))
      = outputRows (csvLoop toLowerCase_latin ([] ++ [csvSymbolsNamed]))
      /\ seenSkus (csvLoop toLowerCase_latin ([] ++ [csvSymbols]))
         = seenSkus (csvLoop toLowerCase_latin [])
      /\ warnings (csvLoop toLowerCase_latin ([] ++ [csvSymbols]))
         = warnings (csvLoop toLowerCase_latin []) ++ [NoHandle csvSymbols])
  /\ outputRows (csvLoop toLowerCase_latin ([] ++ [csvTuxedo]))
     = outputRows (csvLoop toLowerCase_latin [])
       ++ expandCsv toLowerCase_latin csvTuxedo (js "207").
Proof.
  split; [|split].
  - destruct (first_usable_occurrence_wins toLowerCase_latin
                [csvTuxedo] csvTuxedoAgain [csvUpperKey]) as (_ & H & _).
    refine (proj1 (H (js "207") _ _)).
    + vm_compute. reflexivity.
    + exists csvTuxedo. split; [apply list_elem_of_here|].
      split; vm_compute; [reflexivity|discriminate].
  - destruct (first_usable_occurrence_wins toLowerCase_latin
                [] csvSymbols [csvSymbolsNamed]) as (_ & _ & H & _).
    apply (H (js "#")).
    + vm_compute. reflexivity.
    + vm_compute. reflexivity.
    + intros r' Hr'. by apply elem_of_nil in Hr'.
  - destruct (first_usable_occurrence_wins toLowerCase_latin [] csvTuxedo [])
      as (_ & _ & _ & H).
    refine (proj1 (H (js "207") _ _ _)).
    + vm_compute. reflexivity.
    + vm_compute. discriminate.
    + intros r' Hr'. by apply elem_of_nil in Hr'.
Defined.

(** ** Run-level outcomes *)

(** C3, the claim as first stated: in re-projection mode a non-empty input
    whose only row is dropped does not fail; the run returns the null
    result. *)
Lemma all_rows_dropped_returns_null :
  Shopify.processCsv [shopifyBlankHandle]
  = (Returned None, [BlankHandleRow (Some (js "A")); NoRowsProcessed])
  /\ forall e, (Shopify.processCsv [shopifyBlankHandle]).1 <> Thrown e.
Proof. split; [vm_compute; reflexivity|]. intros e. vm_compute. discriminate. Qed.

Lemma no_survivors_outcome_witness :
  (exists log,
      processCsv toLowerCase_latin [csvSymbols] = (Thrown NoProductsInCsv, log)
      /\ length log = 1%nat)
  /\ (exists log,
        Shopify.processCsv [shopifyBlankHandle] = (Returned None, log ++ [NoRowsProcessed])
        /\ length log = 1%nat).
Proof.
  destruct (no_survivors_outcome toLowerCase_latin) as (Hcsv & _ & _ & Hshopify).
  split.
  - destruct (Hcsv [csvSymbols]) as (log & H & Hl & _).
    + discriminate.
    + constructor; [|constructor]. intros k Hk. vm_compute in Hk.
      injection Hk as <-. vm_compute. reflexivity.
    + exists log. exact (conj H Hl).
  - destruct (Hshopify [shopifyBlankHandle]) as (log & H & Hl & _).
    + discriminate.
    + constructor; [|constructor]. vm_compute. reflexivity.
    + exists log. exact (conj H Hl).
Defined.

(** ** The replacement steps on small texts *)

Example replaceSpaces_runs :
  replaceSpaces (js "a  b c ") = js "a-b-c-".
Proof. vm_compute. reflexivity. Qed.

Example collapseHyphens_runs :
  collapseHyphens (js "--a---b-c--") = js "-a-b-c-".
Proof. vm_compute. reflexivity. Qed.

Example trimHyphens_both :
  trimHyphensEnd (trimHyphensStart (js "--a-b--")) = js "a-b".
Proof. vm_compute. reflexivity. Qed.

Example replaceTable_accents :
  replaceTable [233; 116; 233; 95; 241; 58] = js "ete-n-".
Proof. vm_compute. reflexivity. Qed.

Example slugify_ampersand :
  slugify toLowerCase_latin (Some (js "Black & White_Tie")) = js "black-and-white-tie".
Proof. vm_compute. reflexivity. Qed.

(** Only a nameless, colourless call of [createHandle] reads the clock;
    [processText] never makes one. *)
Example createHandle_reads_clock :
  createHandle toLowerCase_latin 1700000000000 [] [] = js "product-1700000000000"
  /\ createHandle toLowerCase_latin 1700000000000 (js "product") [] = js "product".
Proof. split; vm_compute; reflexivity. Qed.

(** ** Instances of the further properties *)

Lemma slugify_well_formed_witness :
  never_upper toLowerCase_latin
  /\ wellFormedSlug (slugify toLowerCase_latin (Some (js "Satin & Twill  Dress_"))).
Proof.
  split; [exact latin_never_upper|].
  exact (slugify_well_formed toLowerCase_latin latin_never_upper
           (Some (js "Satin & Twill  Dress_"))).
Defined.

Lemma slugify_fixed_points_witness :
  slugify toLowerCase_latin (Some (js "satin-twill")) = js "satin-twill"
  <-> wellFormedSlug (js "satin-twill").
Proof.
  exact (slugify_fixed_points toLowerCase_latin latin_lowers_ascii latin_never_upper
           (js "satin-twill")).
Defined.

Lemma slugify_ignores_ascii_case_witness :
  slugify toLowerCase_latin (Some (js "Dress - D747"))
  = slugify toLowerCase_latin (Some (js "dress - d747")).
Proof.
  apply (slugify_ignores_ascii_case toLowerCase_latin latin_lowers_ascii).
  - apply Forall_forall. intros c Hc. apply list_elem_of_In in Hc.
    unfold isAscii. vm_compute in Hc. intuition (subst; reflexivity).
  - apply Forall_forall. intros c Hc. apply list_elem_of_In in Hc.
    unfold isAscii. vm_compute in Hc. intuition (subst; reflexivity).
  - vm_compute. reflexivity.
Defined.

Lemma csv_handles_are_slugs_witness :
  never_upper toLowerCase_latin
  /\ Forall (fun row : MatrixifyRow =>
               exists h, row !! "Handle" = Some (Str h) /\ h <> [] /\ wellFormedSlug h)
            (outputRows (csvLoop toLowerCase_latin [csvTuxedo; csvUpperKey])).
Proof.
  split; [exact latin_never_upper|].
  exact (csv_handles_are_slugs toLowerCase_latin latin_never_upper
           [csvTuxedo; csvUpperKey]).
Defined.

Lemma collectImages_clean_witness :
  collectImages tuxedoClean
  = [js "http://x/1.jpg"] ++ [js "http://x/2.jpg"; js "http://x/3.jpg"].
Proof.
  apply (collectImages_clean tuxedoClean).
  - repeat constructor; discriminate.
  - apply (bool_decide_unpack _). vm_compute. exact I.
Defined.

Lemma csv_outcome_witness :
  (processCsv toLowerCase_latin [csvSymbols; csvTuxedo]).1
  = Returned (outputRows (csvLoop toLowerCase_latin [csvSymbols; csvTuxedo])).
Proof.
  apply (proj1 (csv_outcome toLowerCase_latin [csvSymbols; csvTuxedo])).
  exists csvTuxedo, (js "207"). split; [apply list_elem_of_further, list_elem_of_here|].
  split; vm_compute; [reflexivity|discriminate].
Defined.


Lemma shopify_outcome_witness :
  (Shopify.processCsv [shopifyBlankHandle]).1 = Returned None.
Proof.
  apply (proj1 (proj2 (shopify_outcome [shopifyBlankHandle]))).
  split; [discriminate|]. constructor; [|constructor]. vm_compute. reflexivity.
Defined.


(** The re-projection of two rows of an export, seen through the columns
    the passes write. *)
Example shopify_two_rows :
  (fun r : InputRow => (r !! "Title", r !! "Vendor", r !! "Option1 Name", r !! "Published"))
  <$> keptRows (Shopify.processCsv [shopifyFirst; shopifySecond]).1
  = [ (Some (js "TUXEDO"), Some (js "WITH A WISH"), Some (js "Title"), Some (js "TRUE"));
      (Some (js "TUXEDO"), Some (js "WITH A WISH"), Some (js "Title"), Some (js "TRUE")) ].
Proof. vm_compute. reflexivity. Qed.

Lemma htmlBody_no_line_feed_witness :
  htmlBody (Some (join [10] [js "soft"; js "silk"])) None None
  = join (js "<br>") [js "soft"; js "silk"]
  /\ join (js "<br>") [js "soft"; js "silk"] = js "soft<br>silk".
Proof.
  split; [|reflexivity].
  destruct (htmlBody_no_line_feed None None None) as (_ & _ & H & _).
  apply (H [js "soft"; js "silk"]).
  - repeat constructor; discriminate.
  - discriminate.
Defined.

Lemma json_images_once_per_handle_witness :
  imagesOfHandle (jsonHandle toLowerCase_latin tuxedo)
                 (jsonLoop toLowerCase_latin [tuxedoBare; tuxedo; tuxedoClean]).1
  = Str <$> collectImages tuxedo
  /\ Str <$> collectImages tuxedo
     = [Str (js "http://x/1.jpg"); Str (js "http://x/2.jpg")].
Proof.
  split; [|vm_compute; reflexivity].
  destruct (json_images_once_per_handle toLowerCase_latin
              [tuxedoBare; tuxedo; tuxedoClean]) as (_ & _ & H & _).
  apply (H [tuxedoBare] tuxedo [tuxedoClean]); [reflexivity|reflexivity|].
  intros q Hq _. apply list_elem_of_singleton in Hq as ->. reflexivity.
Defined.
